(** * Winding transform of a sampled function: the [RingSystem] class of main.py

    A shallow embedding of [RingSystem] and the properties of its coordinate
    transform and of its centroid aggregation.

    Numbers.  Python's [float] is read as a real number ([R] of the Standard
    Library): rounding, overflow, infinities and NaN are outside this model,
    and every equation below is an equation of exact arithmetic.  A division
    by a zero [float] raises [ZeroDivisionError], as it does for the [float]
    that the methods are annotated with (a numpy scalar would give an
    infinity or a NaN there, which [R] does not have).

    Effects.  A method of the class is a computation in a state-and-exception
    monad over the object's fields; a raised exception keeps the fields as the
    method left them, since Python does not roll an object back. *)

From Stdlib Require Import Reals Lra Lia List ZArith Bool Sorted Permutation.
Import ListNotations.
Local Open Scope R_scope.

(** ** Exceptions and results *)

Inductive exn : Set :=
| ZeroDivisionError
| IndexError
| ValueError
| KeyError
| AttributeError.

Inductive result (A : Type) : Type :=
| Ok (a : A)
| Raise (e : exn).

Arguments Ok {A} a.
Arguments Raise {A} e.

Definition result_bind {A B : Type} (r : result A) (k : A -> result B) : result B :=
  match r with
  | Ok a => k a
  | Raise e => Raise e
  end.

(** The comparisons [a == b] and [a < b] on floats. *)
Definition float_eqb (a b : R) : bool := if Req_dec_T a b then true else false.
Definition float_ltb (a b : R) : bool := if Rlt_dec a b then true else false.

(** [a / b] on floats. *)
Definition py_div (a b : R) : result R :=
  if float_eqb b 0 then Raise ZeroDivisionError else Ok (a / b).

(** ** Complex numbers, as the interpreter computes with them *)

Module Complex.

Record complex : Type := mk { real : R; imag : R }.

(** [float * complex]: the float is promoted to a complex with imaginary
    part 0 and the two are multiplied. *)
Definition of_float (y : R) : complex := mk y 0.

Definition mul (a b : complex) : complex :=
  mk (real a * real b - imag a * imag b)
     (real a * imag b + imag a * real b).

Definition hypot (a b : R) : R := sqrt (a * a + b * b).

Definition atan2 (y x : R) : R :=
  if Rlt_dec 0 x then atan (y / x)
  else if Rlt_dec x 0 then
         if Rle_dec 0 y then atan (y / x) + PI else atan (y / x) - PI
       else if Rlt_dec 0 y then PI / 2
            else if Rlt_dec y 0 then - (PI / 2) else 0.

(** [a ** b] on complex numbers: the polar-form algorithm of the interpreter.
    (Its shortcut for small integer exponents computes the same number.) *)
Definition pow (a b : complex) : result complex :=
  if float_eqb (real b) 0 && float_eqb (imag b) 0 then Ok (mk 1 0)
  else if float_eqb (real a) 0 && float_eqb (imag a) 0 then
         if negb (float_eqb (imag b) 0) || float_ltb (real b) 0
         then Raise ZeroDivisionError
         else Ok (mk 0 0)
       else
         let vabs := hypot (real a) (imag a) in
         let len := Rpower vabs (real b) in
         let at_ := atan2 (imag a) (real a) in
         let phase := at_ * real b in
         let len' := if float_eqb (imag b) 0 then len else len / exp (at_ * imag b) in
         let phase' := if float_eqb (imag b) 0 then phase else phase + imag b * ln vabs in
         Ok (mk (len' * cos phase') (len' * sin phase')).

End Complex.

(** [math.e] and [math.pi]. *)
Definition math_e : R := exp 1.
Definition math_pi : R := PI.

(** ** Built-ins on lists and dictionaries *)

Fixpoint max_from (m : R) (l : list R) : R :=
  match l with
  | [] => m
  | x :: l' => max_from (if float_ltb m x then x else m) l'
  end.

Fixpoint min_from (m : R) (l : list R) : R :=
  match l with
  | [] => m
  | x :: l' => min_from (if float_ltb x m then x else m) l'
  end.

(** [max(l)] and [min(l)]: [ValueError] on an empty list. *)
Definition py_max (l : list R) : result R :=
  match l with
  | [] => Raise ValueError
  | x :: l' => Ok (max_from x l')
  end.

Definition py_min (l : list R) : result R :=
  match l with
  | [] => Raise ValueError
  | x :: l' => Ok (min_from x l')
  end.

(** [l[i]] for [i >= 0]. *)
Definition py_index {A : Type} (l : list A) (i : nat) : result A :=
  match nth_error l i with
  | Some a => Ok a
  | None => Raise IndexError
  end.

(** [l[-1]]. *)
Definition py_last {A : Type} (l : list A) : result A :=
  match rev l with
  | a :: _ => Ok a
  | [] => Raise IndexError
  end.

Fixpoint insert_sorted (k : R) (l : list R) : list R :=
  match l with
  | [] => [k]
  | h :: t => if float_ltb h k then h :: insert_sorted k t else k :: l
  end.

(** [sorted(l)]. *)
Definition py_sorted (l : list R) : list R := fold_right insert_sorted [] l.

(** A [dict] from floats to [[mean_x, mean_y]] lists: the items in insertion
    order, one per key. *)
Definition dict : Type := list (R * (R * R)).

Definition dict_keys (d : dict) : list R := map fst d.

Fixpoint dict_get (d : dict) (k : R) : result (R * R) :=
  match d with
  | [] => Raise KeyError
  | (k', v) :: d' => if float_eqb k' k then Ok v else dict_get d' k
  end.

(** [d[k] = v]: the value of a present key is replaced where it stands, a new
    key is added at the end. *)
Fixpoint dict_set (d : dict) (k : R) (v : R * R) : dict :=
  match d with
  | [] => [(k, v)]
  | (k', v') :: d' =>
      if float_eqb k' k then (k', v) :: d' else (k', v') :: dict_set d' k v
  end.

(** [numpy.arange(start, stop, step)] on floats: the [ceil((stop - start) / step)]
    values [start + i * step], none when that number is negative. *)
Definition arange (start stop step : R) : result (list R) :=
  result_bind (py_div (stop - start) step) (fun q =>
  Ok (map (fun i => start + INR i * step) (seq 0 (Z.to_nat (Zceil q))))).

(** ** The state of a [RingSystem] *)

(** What the two plots show once [setup_plot] has created them: the line and
    the red dot of the ring plot with its axis limits, and the two lines and
    the red dot of the transform plot with its axis limits.  The slider is
    present through its callback only. *)
Record figure : Type := mkFigure {
  plot_xdata : list R;
  plot_ydata : list R;
  scatter : list (R * R);
  plot_ylim : R * R;
  plot_xlim : R * R;
  fourier_real_xdata : list R;
  fourier_real_ydata : list R;
  fourier_imaginary_xdata : list R;
  fourier_imaginary_ydata : list R;
  fourier_ylim : R * R;
  fourier_xlim : R * R;
  fourier_scatter : list (R * R)
}.

Record RingSystem : Type := mkRingSystem {
  fig : option figure;
  x_data : list R;
  y_data : list R;
  fourier_data : dict;
  shift : R;
  period : R
}.

Definition with_fig (g : option figure) (s : RingSystem) : RingSystem :=
  mkRingSystem g (x_data s) (y_data s) (fourier_data s) (shift s) (period s).
Definition with_x_data (l : list R) (s : RingSystem) : RingSystem :=
  mkRingSystem (fig s) l (y_data s) (fourier_data s) (shift s) (period s).
Definition with_y_data (l : list R) (s : RingSystem) : RingSystem :=
  mkRingSystem (fig s) (x_data s) l (fourier_data s) (shift s) (period s).
Definition with_fourier_data (d : dict) (s : RingSystem) : RingSystem :=
  mkRingSystem (fig s) (x_data s) (y_data s) d (shift s) (period s).
Definition with_shift (r : R) (s : RingSystem) : RingSystem :=
  mkRingSystem (fig s) (x_data s) (y_data s) (fourier_data s) r (period s).
Definition with_period (r : R) (s : RingSystem) : RingSystem :=
  mkRingSystem (fig s) (x_data s) (y_data s) (fourier_data s) (shift s) r.

(** ** Methods as computations *)

Definition M (A : Type) : Type := RingSystem -> result A * RingSystem.

Definition ret {A : Type} (a : A) : M A := fun s => (Ok a, s).

Definition bind {A B : Type} (c : M A) (k : A -> M B) : M B :=
  fun s =>
    match c s with
    | (Ok a, s') => k a s'
    | (Raise e, s') => (Raise e, s')
    end.

Definition gets {A : Type} (f : RingSystem -> A) : M A := fun s => (Ok (f s), s).
Definition modify (f : RingSystem -> RingSystem) : M unit := fun s => (Ok tt, f s).
Definition lift {A : Type} (r : result A) : M A := fun s => (r, s).

Declare Scope py_scope.
Delimit Scope py_scope with py.
Notation "x <- c ;; k" := (bind c (fun x => k))
  (at level 61, c at next level, right associativity) : py_scope.
Notation "c ;; k" := (bind c (fun _ => k))
  (at level 61, right associativity) : py_scope.
Local Open Scope py_scope.

(** The state a method leaves behind, returned or raised. *)
Definition state_of {A : Type} (o : result A * RingSystem) : RingSystem := snd o.

Definition set_plot_xdata (l : list R) (g : figure) : figure :=
  mkFigure l (plot_ydata g) (scatter g) (plot_ylim g) (plot_xlim g)
    (fourier_real_xdata g) (fourier_real_ydata g) (fourier_imaginary_xdata g)
    (fourier_imaginary_ydata g) (fourier_ylim g) (fourier_xlim g) (fourier_scatter g).
Definition set_plot_ydata (l : list R) (g : figure) : figure :=
  mkFigure (plot_xdata g) l (scatter g) (plot_ylim g) (plot_xlim g)
    (fourier_real_xdata g) (fourier_real_ydata g) (fourier_imaginary_xdata g)
    (fourier_imaginary_ydata g) (fourier_ylim g) (fourier_xlim g) (fourier_scatter g).
Definition set_scatter (l : list (R * R)) (g : figure) : figure :=
  mkFigure (plot_xdata g) (plot_ydata g) l (plot_ylim g) (plot_xlim g)
    (fourier_real_xdata g) (fourier_real_ydata g) (fourier_imaginary_xdata g)
    (fourier_imaginary_ydata g) (fourier_ylim g) (fourier_xlim g) (fourier_scatter g).
Definition set_plot_ylim (lo hi : R) (g : figure) : figure :=
  mkFigure (plot_xdata g) (plot_ydata g) (scatter g) (lo, hi) (plot_xlim g)
    (fourier_real_xdata g) (fourier_real_ydata g) (fourier_imaginary_xdata g)
    (fourier_imaginary_ydata g) (fourier_ylim g) (fourier_xlim g) (fourier_scatter g).
Definition set_plot_xlim (lo hi : R) (g : figure) : figure :=
  mkFigure (plot_xdata g) (plot_ydata g) (scatter g) (plot_ylim g) (lo, hi)
    (fourier_real_xdata g) (fourier_real_ydata g) (fourier_imaginary_xdata g)
    (fourier_imaginary_ydata g) (fourier_ylim g) (fourier_xlim g) (fourier_scatter g).
Definition set_fourier_real_xdata (l : list R) (g : figure) : figure :=
  mkFigure (plot_xdata g) (plot_ydata g) (scatter g) (plot_ylim g) (plot_xlim g)
    l (fourier_real_ydata g) (fourier_imaginary_xdata g)
    (fourier_imaginary_ydata g) (fourier_ylim g) (fourier_xlim g) (fourier_scatter g).
Definition set_fourier_real_ydata (l : list R) (g : figure) : figure :=
  mkFigure (plot_xdata g) (plot_ydata g) (scatter g) (plot_ylim g) (plot_xlim g)
    (fourier_real_xdata g) l (fourier_imaginary_xdata g)
    (fourier_imaginary_ydata g) (fourier_ylim g) (fourier_xlim g) (fourier_scatter g).
Definition set_fourier_imaginary_xdata (l : list R) (g : figure) : figure :=
  mkFigure (plot_xdata g) (plot_ydata g) (scatter g) (plot_ylim g) (plot_xlim g)
    (fourier_real_xdata g) (fourier_real_ydata g) l
    (fourier_imaginary_ydata g) (fourier_ylim g) (fourier_xlim g) (fourier_scatter g).
Definition set_fourier_imaginary_ydata (l : list R) (g : figure) : figure :=
  mkFigure (plot_xdata g) (plot_ydata g) (scatter g) (plot_ylim g) (plot_xlim g)
    (fourier_real_xdata g) (fourier_real_ydata g) (fourier_imaginary_xdata g)
    l (fourier_ylim g) (fourier_xlim g) (fourier_scatter g).
Definition set_fourier_ylim (lo hi : R) (g : figure) : figure :=
  mkFigure (plot_xdata g) (plot_ydata g) (scatter g) (plot_ylim g) (plot_xlim g)
    (fourier_real_xdata g) (fourier_real_ydata g) (fourier_imaginary_xdata g)
    (fourier_imaginary_ydata g) (lo, hi) (fourier_xlim g) (fourier_scatter g).
Definition set_fourier_xlim (lo hi : R) (g : figure) : figure :=
  mkFigure (plot_xdata g) (plot_ydata g) (scatter g) (plot_ylim g) (plot_xlim g)
    (fourier_real_xdata g) (fourier_real_ydata g) (fourier_imaginary_xdata g)
    (fourier_imaginary_ydata g) (fourier_ylim g) (lo, hi) (fourier_scatter g).
Definition set_fourier_scatter (l : list (R * R)) (g : figure) : figure :=
  mkFigure (plot_xdata g) (plot_ydata g) (scatter g) (plot_ylim g) (plot_xlim g)
    (fourier_real_xdata g) (fourier_real_ydata g) (fourier_imaginary_xdata g)
    (fourier_imaginary_ydata g) (fourier_ylim g) (fourier_xlim g) l.

(** A call on one of the plot objects; they exist once [setup_plot] has run. *)
Definition on_fig (f : figure -> figure) : M unit :=
  fun s =>
    match fig s with
    | Some g => (Ok tt, with_fig (Some (f g)) s)
    | None => (Raise AttributeError, s)
    end.

Fixpoint for_each {A : Type} (l : list A) (body : A -> M unit) : M unit :=
  match l with
  | [] => ret tt
  | a :: l' => body a ;; for_each l' body
  end.

(** [__init__] leaves the object in this state. *)
Definition init : RingSystem := mkRingSystem None [] [] [] 0 0.

(** New, empty plots with the default axis limits. *)
Definition setup_plot : M unit :=
  modify (with_fig (Some (mkFigure [] [] [] (0, 1) (0, 1) [] [] [] [] (0, 1) (0, 1) []))).

Definition coordinate_to_ring (x y : R) : M (R * R) :=
  sh <- gets shift ;;
  p <- gets period ;;
  q <- lift (py_div (x + sh) p) ;;
  let x_radian := q * 2 * math_pi in
  w <- lift (Complex.pow (Complex.mk math_e 0) (Complex.mk 0 x_radian)) ;;
  let coordinate := Complex.mul (Complex.of_float y) w in
  ret (Complex.real coordinate, Complex.imag coordinate).

Definition add_point (x y : R) : M unit :=
  modify (fun s => with_x_data (x_data s ++ [x]) s) ;;
  modify (fun s => with_y_data (y_data s ++ [y]) s).

Definition reset_points : M unit :=
  modify (with_x_data []) ;;
  modify (with_y_data []) ;;
  modify (with_fourier_data []).

(** [f] is a function of floats that returns. *)
Definition add_function (from_x to_x : R) (samples : Z) (f : R -> R) : M unit :=
  reset_points ;;
  step <- lift (py_div (to_x - from_x) (IZR samples)) ;;
  xs <- lift (arange from_x (to_x + step) step) ;;
  for_each xs (fun x => add_point x (f x)).

(** The variables of the loop of [draw_points]. *)
Record ring_acc : Type := mkAcc {
  mean_x : R;
  mean_y : R;
  x_ring_vec : list R;
  y_ring_vec : list R
}.

Definition ring_body (i : nat) (a : ring_acc) : M ring_acc :=
  xs <- gets x_data ;;
  xi <- lift (py_index xs i) ;;
  ys <- gets y_data ;;
  yi <- lift (py_index ys i) ;;
  c <- coordinate_to_ring xi yi ;;
  n <- gets (fun s => length (x_data s)) ;;
  dx <- lift (py_div (fst c) (INR n)) ;;
  m <- gets (fun s => length (y_data s)) ;;
  dy <- lift (py_div (snd c) (INR m)) ;;
  ret (mkAcc (mean_x a + dx) (mean_y a + dy)
             (x_ring_vec a ++ [fst c]) (y_ring_vec a ++ [snd c])).

Fixpoint ring_loop (idx : list nat) (a : ring_acc) : M ring_acc :=
  match idx with
  | [] => ret a
  | i :: idx' => a' <- ring_body i a ;; ring_loop idx' a'
  end.

(** [[(x, d[x]) for x in ks]]. *)
Fixpoint items_of (d : dict) (ks : list R) : result (list (R * (R * R))) :=
  match ks with
  | [] => Ok []
  | k :: ks' =>
      result_bind (dict_get d k) (fun v =>
      result_bind (items_of d ks') (fun l => Ok ((k, v) :: l)))
  end.

(** The automatic period: the span of the x coordinates, starting at the
    smallest one. *)
Definition auto_period (xs : list R) : M unit :=
  mx <- lift (py_max xs) ;;
  mn <- lift (py_min xs) ;;
  modify (with_period (mx - mn)) ;;
  xs' <- gets x_data ;;
  mn' <- lift (py_min xs') ;;
  modify (with_shift (- mn')).

(** The second half of [draw_points]: the ring plot, the entry of the
    current period in [fourier_data], and the transform plot. *)
Definition render (a : ring_acc) : M unit :=
  f <- gets fig ;;
  match f with None => setup_plot | Some _ => ret tt end ;;
  on_fig (set_plot_ydata (y_ring_vec a)) ;;
  on_fig (set_plot_xdata (x_ring_vec a)) ;;
  on_fig (set_scatter [(mean_x a, mean_y a)]) ;;
  ys <- gets y_data ;;
  boundary <- lift (py_max ys) ;;
  on_fig (set_plot_ylim (- boundary) boundary) ;;
  on_fig (set_plot_xlim (- boundary) boundary) ;;
  p <- gets period ;;
  modify (fun s => with_fourier_data
                     (dict_set (fourier_data s) p (mean_x a, mean_y a)) s) ;;
  d <- gets fourier_data ;;
  fourier_list <- lift (items_of d (py_sorted (dict_keys d))) ;;
  on_fig (set_fourier_real_ydata (map (fun x => fst (snd x)) fourier_list)) ;;
  on_fig (set_fourier_real_xdata (map fst fourier_list)) ;;
  on_fig (set_fourier_ylim (- boundary) boundary) ;;
  hi <- lift (py_last fourier_list) ;;
  on_fig (set_fourier_xlim 0 (fst hi)) ;;
  on_fig (set_fourier_imaginary_ydata (map (fun x => snd (snd x)) fourier_list)) ;;
  on_fig (set_fourier_imaginary_xdata (map fst fourier_list)) ;;
  on_fig (set_fourier_ylim (- boundary) boundary) ;;
  hi' <- lift (py_last fourier_list) ;;
  on_fig (set_fourier_xlim 0 (fst hi')) ;;
  p' <- gets period ;;
  d' <- gets fourier_data ;;
  v <- lift (dict_get d' p') ;;
  top <- lift (py_max [fst v; snd v]) ;;
  on_fig (set_fourier_scatter [(p', top)]).

Definition draw_points : M unit :=
  xs <- gets x_data ;;
  match xs with
  | [] => ret tt
  | _ :: _ =>
      p <- gets period ;;
      (if float_eqb p 0 then auto_period xs else ret tt) ;;
      n <- gets (fun s => length (x_data s)) ;;
      a <- ring_loop (seq 0 n) (mkAcc 0 0 [] []) ;;
      render a
  end.

(** The slider's callback; the canvas it redraws belongs to the figure. *)
Definition update_period (p : R) : M unit :=
  modify (with_period p) ;;
  draw_points ;;
  f <- gets fig ;;
  match f with
  | Some _ => ret tt
  | None => lift (Raise AttributeError)
  end.

(** With the plots on screen the slider is moved to the new period, and the
    slider calls its callback [update_period] with that value. *)
Definition set_period (p sh : R) : M unit :=
  modify (with_shift sh) ;;
  modify (with_period p) ;;
  f <- gets fig ;;
  match f with
  | Some _ => q <- gets period ;; update_period q
  | None => ret tt
  end.

(** ** Mathematical descriptions of the results *)

(** The point of the circle of radius [y] at the angle that [x] has when one
    turn is [p] long and starts at [- sh]. *)
Definition ring_angle (x p sh : R) : R := (x + sh) / p * (2 * PI).

Definition ring_map (x y p sh : R) : R * R :=
  (y * cos (ring_angle x p sh), y * sin (ring_angle x p sh)).

(** What is left of [max(l)] and [min(l)] once the list is known not to be
    empty. *)
Definition max_of (l : list R) : R :=
  match l with
  | [] => 0
  | x :: l' => max_from x l'
  end.

Definition min_of (l : list R) : R :=
  match l with
  | [] => 0
  | x :: l' => min_from x l'
  end.

Definition sum (l : list R) : R := fold_right Rplus 0 l.

(** The arithmetic mean of a list of numbers. *)
Definition mean (l : list R) : R := sum l / INR (length l).

(** The samples, and their images on the ring under the period and shift of
    the state. *)
Definition samples (s : RingSystem) : list (R * R) := combine (x_data s) (y_data s).

Definition ring_points (s : RingSystem) : list (R * R) :=
  map (fun xy => ring_map (fst xy) (snd xy) (period s) (shift s)) (samples s).

(** The loop of [draw_points] run over given ring points, [n] and [m] being
    the two lengths it divides by. *)
Fixpoint accumulate (n m : R) (pts : list (R * R)) (a : ring_acc) : ring_acc :=
  match pts with
  | [] => a
  | c :: pts' =>
      accumulate n m pts'
        (mkAcc (mean_x a + fst c / n) (mean_y a + snd c / m)
               (x_ring_vec a ++ [fst c]) (y_ring_vec a ++ [snd c]))
  end.

(** The state after the period has been derived, when it had to be. *)
Definition resolve (s : RingSystem) : RingSystem :=
  match x_data s with
  | [] => s
  | _ :: _ =>
      if float_eqb (period s) 0
      then with_shift (- min_of (x_data s))
             (with_period (max_of (x_data s) - min_of (x_data s)) s)
      else s
  end.

Definition value_of (d : dict) (k : R) : R * R :=
  match dict_get d k with
  | Ok v => v
  | Raise _ => (0, 0)
  end.

(** The state in which [render] returns. *)
Definition rendered (a : ring_acc) (s : RingSystem) : RingSystem :=
  let b := max_of (y_data s) in
  let c := (mean_x a, mean_y a) in
  let d := dict_set (fourier_data s) (period s) c in
  let fl := map (fun k => (k, value_of d k)) (py_sorted (dict_keys d)) in
  let hi := match rev fl with x :: _ => fst x | [] => 0 end in
  mkRingSystem
    (Some (mkFigure (x_ring_vec a) (y_ring_vec a) [c] (- b, b) (- b, b)
             (map fst fl) (map (fun x => fst (snd x)) fl)
             (map fst fl) (map (fun x => snd (snd x)) fl)
             (- b, b) (0, hi) [(period s, max_from (fst c) [snd c])]))
    (x_data s) (y_data s) d (shift s) (period s).

(** The state in which [draw_points] returns when there are samples. *)
Definition drawn (s : RingSystem) : RingSystem :=
  let r := resolve s in
  rendered (accumulate (INR (length (x_data r))) (INR (length (y_data r)))
              (ring_points r) (mkAcc 0 0 [] [])) r.

(** The centroid that [draw_points] shows and records. *)
Definition centroid (s : RingSystem) : R * R :=
  let r := resolve s in
  let a := accumulate (INR (length (x_data r))) (INR (length (y_data r)))
             (ring_points r) (mkAcc 0 0 [] []) in
  (mean_x a, mean_y a).

(** The fields that only the caller's methods assign to, and a computation
    that leaves a view [f] of the state as it found it. *)
Definition core (s : RingSystem) : list R * list R * R * R :=
  (x_data s, y_data s, shift s, period s).

Definition keeps {A B : Type} (f : RingSystem -> B) (c : M A) : Prop :=
  forall s, f (snd (c s)) = f s.

(** [m] is the largest, respectively the smallest, element of [l]. *)
Definition is_max (m : R) (l : list R) : Prop :=
  In m l /\ forall x, In x l -> x <= m.

Definition is_min (m : R) (l : list R) : Prop :=
  In m l /\ forall x, In x l -> m <= x.

(** Selecting a period: [set_period(p)], then [draw_points()]. *)
Definition select_period (p : R) : M unit :=
  set_period p 0 ;;
  draw_points.

(** A call raises. *)
Definition raises {A : Type} (c : M A) (s : RingSystem) : Prop :=
  exists e s', c s = (Raise e, s').

(** ** The public operations and the states they reach *)

Inductive op : Type :=
| AddPoint (x y : R)
| AddFunction (from_x to_x : R) (samples : Z) (f : R -> R)
| SetPeriod (p sh : R)
| UpdatePeriod (p : R)
| ResetPoints
| DrawPoints.

Definition run_op (o : op) : M unit :=
  match o with
  | AddPoint x y => add_point x y
  | AddFunction from_x to_x samples f => add_function from_x to_x samples f
  | SetPeriod p sh => set_period p sh
  | UpdatePeriod p => update_period p
  | ResetPoints => reset_points
  | DrawPoints => draw_points
  end.

(** The states that calls on a new object lead to; a call that raises leaves
    the object usable in the state it was in when it raised. *)
Inductive reachable : RingSystem -> Prop :=
| reachable_init : reachable init
| reachable_step (s : RingSystem) (o : op) :
    reachable s -> reachable (state_of (run_op o s)).

(** There is one y coordinate for each x coordinate. *)
Definition well_formed (s : RingSystem) : Prop :=
  length (x_data s) = length (y_data s).

(** A computation that maintains a property of the state, whether it returns
    or raises. *)
Definition preserves {A : Type} (P : RingSystem -> Prop) (c : M A) : Prop :=
  forall s, P s -> P (state_of (c s)).

(** The period with the dictionary, and the one way [render] touches them: the
    period stays, and the dictionary stays or gets an entry for the period. *)
Definition curve (s : RingSystem) : R * dict := (period s, fourier_data s).

Definition recorded (b b' : R * dict) : Prop :=
  fst b' = fst b /\
  (snd b' = snd b \/ exists c, snd b' = dict_set (snd b) (fst b) c).


(** The plots have been set up. *)
Definition has_fig (s : RingSystem) : Prop := fig s <> None.

(** ** Reasoning about computations *)

Lemma float_eqb_true (a b : R) : a = b -> float_eqb a b = true.
Proof. intros H. unfold float_eqb. destruct (Req_dec_T a b); [reflexivity | contradiction]. Qed.

Lemma float_eqb_false (a b : R) : a <> b -> float_eqb a b = false.
Proof. intros H. unfold float_eqb. destruct (Req_dec_T a b); [contradiction | reflexivity]. Qed.

Lemma float_eqb_refl (a : R) : float_eqb a a = true.
Proof. now apply float_eqb_true. Qed.

Lemma float_ltb_true (a b : R) : a < b -> float_ltb a b = true.
Proof. intros H. unfold float_ltb. destruct (Rlt_dec a b); [reflexivity | contradiction]. Qed.

Lemma float_ltb_false (a b : R) : ~ a < b -> float_ltb a b = false.
Proof. intros H. unfold float_ltb. destruct (Rlt_dec a b); [contradiction | reflexivity]. Qed.

Lemma py_div_ok (a b : R) : b <> 0 -> py_div a b = Ok (a / b).
Proof. intros H. unfold py_div. now rewrite float_eqb_false. Qed.

Lemma py_div_zero (a : R) : py_div a 0 = Raise ZeroDivisionError.
Proof. unfold py_div. now rewrite float_eqb_refl. Qed.

Lemma bind_ok {A B : Type} (c : M A) (k : A -> M B) (s s' : RingSystem) (a : A) :
  c s = (Ok a, s') -> bind c k s = k a s'.
Proof. intros H. unfold bind. now rewrite H. Qed.

Lemma bind_raise {A B : Type} (c : M A) (k : A -> M B) (s s' : RingSystem) (e : exn) :
  c s = (Raise e, s') -> bind c k s = (Raise e, s').
Proof. intros H. unfold bind. now rewrite H. Qed.

(** ** The ring mapping *)

Lemma math_e_pos : 0 < math_e.
Proof. apply exp_pos. Qed.

Lemma hypot_e : Complex.hypot math_e 0 = math_e.
Proof.
  unfold Complex.hypot.
  replace (math_e * math_e + 0 * 0) with (Rsqr math_e) by (unfold Rsqr; ring).
  apply sqrt_Rsqr. left. apply math_e_pos.
Qed.

Lemma atan2_e : Complex.atan2 0 math_e = 0.
Proof.
  unfold Complex.atan2. destruct (Rlt_dec 0 math_e) as [_ | H].
  - unfold Rdiv. rewrite Rmult_0_l. apply atan_0.
  - exfalso. apply H, math_e_pos.
Qed.

(** Euler's formula, as the complex power computes it. *)
Lemma pow_e_i (t : R) :
  Complex.pow (Complex.mk math_e 0) (Complex.mk 0 t) = Ok (Complex.mk (cos t) (sin t)).
Proof.
  unfold Complex.pow. cbn [Complex.real Complex.imag].
  rewrite float_eqb_refl. cbn [andb].
  destruct (Req_dec_T t 0) as [-> | Ht].
  - rewrite float_eqb_refl. now rewrite cos_0, sin_0.
  - rewrite (float_eqb_false t 0 Ht).
    rewrite (float_eqb_false math_e 0) by (pose proof math_e_pos; lra).
    cbn [andb]. rewrite hypot_e, atan2_e.
    unfold Rpower. rewrite !Rmult_0_l, exp_0.
    unfold math_e at 1 2. rewrite ln_exp.
    f_equal. f_equal.
    + replace (0 + t * 1) with t by ring. unfold Rdiv. rewrite Rinv_1. ring.
    + replace (0 + t * 1) with t by ring. unfold Rdiv. rewrite Rinv_1. ring.
Qed.

Lemma coordinate_to_ring_ok (x y : R) (s : RingSystem) :
  period s <> 0 ->
  coordinate_to_ring x y s = (Ok (ring_map x y (period s) (shift s)), s).
Proof.
  intros Hp. unfold coordinate_to_ring, bind, gets, lift, ret.
  rewrite (py_div_ok _ _ Hp), pow_e_i.
  unfold ring_map, ring_angle, math_pi, Complex.mul, Complex.of_float.
  cbn [Complex.real Complex.imag].
  replace ((x + shift s) / period s * 2 * PI)
    with ((x + shift s) / period s * (2 * PI)) by ring.
  do 3 f_equal; ring.
Qed.

Lemma coordinate_to_ring_zero (x y : R) (s : RingSystem) :
  period s = 0 ->
  coordinate_to_ring x y s = (Raise ZeroDivisionError, s).
Proof.
  intros Hp. unfold coordinate_to_ring, bind, gets, lift.
  now rewrite Hp, py_div_zero.
Qed.

(** ** Lists and dictionaries *)

Lemma insert_sorted_length (k : R) (l : list R) :
  length (insert_sorted k l) = S (length l).
Proof.
  induction l as [| h t IH]; cbn; [reflexivity |].
  destruct (float_ltb h k); cbn; now rewrite ?IH.
Qed.

Lemma py_sorted_length (l : list R) : length (py_sorted l) = length l.
Proof.
  unfold py_sorted. induction l as [| h t IH]; cbn; [reflexivity |].
  now rewrite insert_sorted_length, IH.
Qed.

Lemma insert_sorted_In (k x : R) (l : list R) :
  In x (insert_sorted k l) -> x = k \/ In x l.
Proof.
  induction l as [| h t IH]; cbn.
  - intros [H | []]. now left.
  - destruct (float_ltb h k); cbn.
    + intros [H | H]; [now right; left |]. destruct (IH H); auto.
    + intros [H | H]; auto.
Qed.

Lemma py_sorted_In (x : R) (l : list R) : In x (py_sorted l) -> In x l.
Proof.
  unfold py_sorted. induction l as [| h t IH]; cbn; [tauto |].
  intros H. apply insert_sorted_In in H. destruct H; auto.
Qed.

Lemma dict_get_In (d : dict) (k : R) :
  In k (dict_keys d) -> dict_get d k = Ok (value_of d k).
Proof.
  unfold value_of. induction d as [| [k' v] d IH]; cbn; [tauto |].
  intros [H | H].
  - now rewrite (float_eqb_true _ _ H).
  - destruct (float_eqb k' k); [reflexivity | auto].
Qed.

Lemma items_of_ok (d : dict) (ks : list R) :
  (forall k, In k ks -> In k (dict_keys d)) ->
  items_of d ks = Ok (map (fun k => (k, value_of d k)) ks).
Proof.
  induction ks as [| k ks IH]; intros H; cbn; [reflexivity |].
  rewrite dict_get_In by (apply H; now left). cbn.
  rewrite IH by (intros; apply H; now right). reflexivity.
Qed.

Lemma dict_get_set_same (d : dict) (k : R) (v : R * R) :
  dict_get (dict_set d k v) k = Ok v.
Proof.
  induction d as [| [k' v'] d IH]; cbn.
  - now rewrite float_eqb_refl.
  - destruct (float_eqb k' k) eqn:E; cbn; now rewrite E.
Qed.

Lemma dict_set_nonempty (d : dict) (k : R) (v : R * R) : dict_set d k v <> [].
Proof. destruct d as [| [k' v'] d]; cbn; [| destruct (float_eqb k' k)]; discriminate. Qed.

Lemma dict_set_keys_present (d : dict) (k : R) (v : R * R) :
  In k (dict_keys d) -> dict_keys (dict_set d k v) = dict_keys d.
Proof.
  induction d as [| [k' v'] d IH]; cbn; [tauto |].
  intros H. destruct (float_eqb k' k) eqn:E; cbn; [reflexivity |].
  f_equal. apply IH. destruct H as [H | H]; [| exact H].
  rewrite (float_eqb_true _ _ H) in E. discriminate.
Qed.

Lemma dict_set_keys_absent (d : dict) (k : R) (v : R * R) :
  ~ In k (dict_keys d) -> dict_keys (dict_set d k v) = dict_keys d ++ [k].
Proof.
  induction d as [| [k' v'] d IH]; cbn; [reflexivity |].
  intros H. rewrite float_eqb_false by tauto. cbn. f_equal. apply IH. tauto.
Qed.

(** Assigning to a key keeps the keys of a dictionary distinct. *)
Lemma dict_set_NoDup (d : dict) (k : R) (v : R * R) :
  NoDup (dict_keys d) -> NoDup (dict_keys (dict_set d k v)).
Proof.
  intros H. destruct (in_dec Req_dec_T k (dict_keys d)) as [Hin | Hout].
  - now rewrite dict_set_keys_present.
  - rewrite dict_set_keys_absent by assumption.
    apply NoDup_app; [assumption | repeat constructor; intros [] | ].
    intros x Hx [<- | []]. contradiction.
Qed.

(** Assigning the same value to the same key again changes nothing. *)
Lemma dict_set_idem (d : dict) (k : R) (v : R * R) :
  dict_set (dict_set d k v) k v = dict_set d k v.
Proof.
  induction d as [| [k' v'] d IH]; cbn.
  - now rewrite float_eqb_refl.
  - destruct (float_eqb k' k) eqn:E; cbn; rewrite E; [reflexivity | now rewrite IH].
Qed.

(** ** The loop of [draw_points] *)

Lemma py_index_middle {A : Type} (pre post : list A) (a : A) :
  py_index (pre ++ a :: post) (length pre) = Ok a.
Proof.
  unfold py_index. rewrite nth_error_app2 by lia. now rewrite Nat.sub_diag.
Qed.

Lemma ring_body_ok (s : RingSystem) (a : ring_acc) (px qx py qy : list R) (x y : R) :
  period s <> 0 ->
  x_data s = px ++ x :: qx ->
  y_data s = py ++ y :: qy ->
  length px = length py ->
  ring_body (length px) a s =
    (Ok (accumulate (INR (length (x_data s))) (INR (length (y_data s)))
           [ring_map x y (period s) (shift s)] a), s).
Proof.
  intros Hp Hx Hy Hl. unfold ring_body.
  unfold bind at 1. unfold gets at 1.
  unfold bind at 1. unfold lift at 1. rewrite Hx, py_index_middle.
  unfold bind at 1. unfold gets at 1.
  unfold bind at 1. unfold lift at 1. rewrite Hy, Hl, py_index_middle.
  rewrite (bind_ok _ _ _ _ _ (coordinate_to_ring_ok x y s Hp)).
  unfold bind, gets, lift, ret. rewrite Hx, Hy.
  rewrite !py_div_ok; [reflexivity | |]; apply not_0_INR; rewrite length_app; cbn; lia.
Qed.

Lemma ring_loop_ok (s : RingSystem) :
  period s <> 0 ->
  forall (qx qy px py : list R) (a : ring_acc),
    x_data s = px ++ qx ->
    y_data s = py ++ qy ->
    length px = length py ->
    length qx = length qy ->
    ring_loop (seq (length px) (length qx)) a s =
      (Ok (accumulate (INR (length (x_data s))) (INR (length (y_data s)))
             (map (fun xy => ring_map (fst xy) (snd xy) (period s) (shift s))
                  (combine qx qy)) a), s).
Proof.
  intros Hp. induction qx as [| x qx IH]; intros qy px py a Hx Hy Hl Hq.
  - reflexivity.
  - destruct qy as [| y qy]; [discriminate |].
    cbn [length seq ring_loop].
    rewrite (bind_ok _ _ _ _ _ (ring_body_ok s a px qx py qy x y Hp Hx Hy Hl)).
    specialize (IH qy (px ++ [x]) (py ++ [y])).
    rewrite length_app, Nat.add_1_r in IH. rewrite IH.
    + reflexivity.
    + now rewrite <- app_assoc.
    + now rewrite <- app_assoc.
    + rewrite !length_app. cbn. lia.
    + cbn in Hq. lia.
Qed.

(** The loop never assigns to a field. *)
Lemma ring_body_state (i : nat) (a : ring_acc) (s : RingSystem) :
  snd (ring_body i a s) = s.
Proof.
  unfold ring_body, coordinate_to_ring, bind, gets, lift, ret.
  repeat match goal with
         | |- context [match ?r with Ok _ => _ | Raise _ => _ end] => destruct r
         end; reflexivity.
Qed.

Lemma ring_loop_state (idx : list nat) :
  forall (a : ring_acc) (s : RingSystem), snd (ring_loop idx a s) = s.
Proof.
  induction idx as [| i idx IH]; intros a s; [reflexivity |].
  cbn [ring_loop]. unfold bind.
  pose proof (ring_body_state i a s) as H.
  destruct (ring_body i a s) as [[a' | e] s']; cbn in H; subst s'; [apply IH | reflexivity].
Qed.

Lemma ring_loop_all (s : RingSystem) :
  period s <> 0 ->
  length (x_data s) = length (y_data s) ->
  ring_loop (seq 0 (length (x_data s))) (mkAcc 0 0 [] []) s =
    (Ok (accumulate (INR (length (x_data s))) (INR (length (y_data s)))
           (ring_points s) (mkAcc 0 0 [] [])), s).
Proof.
  intros Hp Hl.
  exact (ring_loop_ok s Hp (x_data s) (y_data s) [] [] _ eq_refl eq_refl eq_refl Hl).
Qed.

Lemma accumulate_mean_x (n m : R) (pts : list (R * R)) :
  forall a, mean_x (accumulate n m pts a) = mean_x a + sum (map fst pts) / n.
Proof.
  induction pts as [| c pts IH]; intros a; cbn.
  - unfold Rdiv. ring.
  - rewrite IH. cbn. fold (sum (map fst pts)). unfold Rdiv. ring.
Qed.

Lemma accumulate_mean_y (n m : R) (pts : list (R * R)) :
  forall a, mean_y (accumulate n m pts a) = mean_y a + sum (map snd pts) / m.
Proof.
  induction pts as [| c pts IH]; intros a; cbn.
  - unfold Rdiv. ring.
  - rewrite IH. cbn. fold (sum (map snd pts)). unfold Rdiv. ring.
Qed.

Lemma accumulate_x_ring_vec (n m : R) (pts : list (R * R)) :
  forall a, x_ring_vec (accumulate n m pts a) = x_ring_vec a ++ map fst pts.
Proof.
  induction pts as [| c pts IH]; intros a; cbn.
  - now rewrite app_nil_r.
  - rewrite IH. cbn. now rewrite <- app_assoc.
Qed.

Lemma accumulate_y_ring_vec (n m : R) (pts : list (R * R)) :
  forall a, y_ring_vec (accumulate n m pts a) = y_ring_vec a ++ map snd pts.
Proof.
  induction pts as [| c pts IH]; intros a; cbn.
  - now rewrite app_nil_r.
  - rewrite IH. cbn. now rewrite <- app_assoc.
Qed.

(** ** [draw_points] *)

Lemma py_max_ok (l : list R) : l <> [] -> py_max l = Ok (max_of l).
Proof. destruct l; [contradiction | reflexivity]. Qed.

Lemma py_min_ok (l : list R) : l <> [] -> py_min l = Ok (min_of l).
Proof. destruct l; [contradiction | reflexivity]. Qed.

Lemma py_last_ok {A : Type} (l : list A) (a : A) (l' : list A) :
  rev l = a :: l' -> py_last l = Ok a.
Proof. intros H. unfold py_last. now rewrite H. Qed.

(** Runs the assignments to fields and plot objects, and nothing else. *)
Ltac run_fields :=
  cbv beta iota delta
    [bind gets lift modify ret on_fig setup_plot
     with_fig with_x_data with_y_data with_fourier_data with_shift with_period
     fig x_data y_data fourier_data shift period
     set_plot_xdata set_plot_ydata set_scatter set_plot_ylim set_plot_xlim
     set_fourier_real_xdata set_fourier_real_ydata set_fourier_imaginary_xdata
     set_fourier_imaginary_ydata set_fourier_ylim set_fourier_xlim set_fourier_scatter
     plot_xdata plot_ydata scatter plot_ylim plot_xlim fourier_real_xdata
     fourier_real_ydata fourier_imaginary_xdata fourier_imaginary_ydata
     fourier_ylim fourier_xlim fourier_scatter].

Lemma render_ok (a : ring_acc) (s : RingSystem) :
  y_data s <> [] -> render a s = (Ok tt, rendered a s).
Proof.
  destruct s as [f xs ys fd sh p]. cbn [y_data]. intros Hy.
  unfold render, rendered. cbn [fig x_data y_data fourier_data shift period].
  set (c := (mean_x a, mean_y a)).
  set (d := dict_set fd p c).
  set (fl := map (fun k => (k, value_of d k)) (py_sorted (dict_keys d))).
  assert (Hitems : items_of d (py_sorted (dict_keys d)) = Ok fl)
    by (apply items_of_ok; intros k; apply py_sorted_In).
  assert (Hlast : exists h t, rev fl = h :: t).
  { destruct (rev fl) as [| h t] eqn:E; [| now exists h, t].
    exfalso. apply (f_equal (@length _)) in E.
    rewrite length_rev in E. unfold fl in E.
    rewrite length_map, py_sorted_length in E. unfold dict_keys in E.
    rewrite length_map in E. apply length_zero_iff_nil in E.
    now apply dict_set_nonempty in E. }
  destruct Hlast as [h [t Hlast]].
  unfold bind, gets, lift, modify, ret, on_fig, setup_plot.
  destruct f as [g |]; run_fields;
    rewrite (py_max_ok _ Hy); run_fields; fold c; fold d;
    rewrite Hitems; run_fields; rewrite (py_last_ok _ _ _ Hlast); run_fields;
    unfold d at 1; rewrite dict_get_set_same; run_fields;
    cbn [py_max]; rewrite Hlast; reflexivity.
Qed.

Section Keeps.

Context {B : Type} (f : RingSystem -> B).

Lemma keeps_ret {A : Type} (a : A) : keeps f (ret a).
Proof. intros s. reflexivity. Qed.

Lemma keeps_gets {A : Type} (g : RingSystem -> A) : keeps f (gets g).
Proof. intros s. reflexivity. Qed.

Lemma keeps_lift {A : Type} (r : result A) : keeps f (lift r).
Proof. intros s. reflexivity. Qed.

Lemma keeps_modify (g : RingSystem -> RingSystem) :
  (forall s, f (g s) = f s) -> keeps f (modify g).
Proof. intros H s. apply H. Qed.

Lemma keeps_bind {A C : Type} (c : M A) (k : A -> M C) :
  keeps f c -> (forall a, keeps f (k a)) -> keeps f (bind c k).
Proof.
  intros Hc Hk s. unfold bind. specialize (Hc s).
  destruct (c s) as [[a | e] s']; cbn in Hc.
  - now rewrite Hk.
  - exact Hc.
Qed.

Lemma keeps_on_fig (h : figure -> figure) :
  (forall g s, f (with_fig g s) = f s) -> keeps f (on_fig h).
Proof. intros H s. unfold on_fig. destruct (fig s); cbn; [apply H | reflexivity]. Qed.

Lemma keeps_ring_loop (idx : list nat) (a : ring_acc) : keeps f (ring_loop idx a).
Proof. intros s. now rewrite ring_loop_state. Qed.

Lemma keeps_for_each {A : Type} (l : list A) (body : A -> M unit) :
  (forall a, keeps f (body a)) -> keeps f (for_each l body).
Proof.
  intros H. induction l as [| a l IH]; cbn [for_each].
  - apply keeps_ret.
  - apply keeps_bind; [apply H | intros _; exact IH].
Qed.

End Keeps.

Ltac keeps_steps :=
  repeat first
    [ apply keeps_ret | apply keeps_gets | apply keeps_lift | apply keeps_ring_loop
    | apply keeps_on_fig; intros; reflexivity
    | apply keeps_modify; intros; reflexivity
    | apply keeps_bind; [| intros ? ]
    | match goal with |- keeps _ (match ?x with _ => _ end) => destruct x end ].

Lemma core_eq (a b : RingSystem) :
  core a = core b ->
  x_data a = x_data b /\ y_data a = y_data b /\ shift a = shift b /\ period a = period b.
Proof. unfold core. intros H. injection H as Hx Hy Hs Hp. auto. Qed.

Lemma render_core (a : ring_acc) : keeps core (render a).
Proof. unfold render, setup_plot. keeps_steps. Qed.

Lemma draw_points_empty (s : RingSystem) :
  x_data s = [] -> draw_points s = (Ok tt, s).
Proof. intros H. unfold draw_points, bind, gets. now rewrite H. Qed.

(** The first half of [draw_points]: what happens to the period. *)
Lemma draw_points_resolve (s : RingSystem) :
  x_data s <> [] ->
  draw_points s =
    (a <- ring_loop (seq 0 (length (x_data s))) (mkAcc 0 0 [] []) ;; render a)
      (resolve s).
Proof.
  destruct s as [f xs ys fd sh p]. cbn [x_data]. intros H.
  destruct xs as [| x l]; [contradiction |].
  unfold draw_points, resolve, auto_period. run_fields.
  destruct (float_eqb p 0); run_fields; cbn [py_max py_min max_of min_of];
    run_fields; reflexivity.
Qed.

Lemma resolve_samples (s : RingSystem) :
  x_data (resolve s) = x_data s /\ y_data (resolve s) = y_data s /\
  fourier_data (resolve s) = fourier_data s /\ fig (resolve s) = fig s.
Proof.
  unfold resolve. destruct (x_data s) eqn:E; [now rewrite E |].
  destruct (float_eqb (period s) 0); cbn; now rewrite ?E.
Qed.

Lemma draw_points_core (s : RingSystem) :
  core (snd (draw_points s)) = core (resolve s).
Proof.
  destruct (x_data s) as [| x l] eqn:E.
  - rewrite draw_points_empty by assumption. unfold resolve. now rewrite E.
  - rewrite draw_points_resolve by (rewrite E; discriminate).
    apply keeps_bind; [apply keeps_ring_loop | intros a; apply render_core].
Qed.

(** [draw_points] on a state with samples, one y for each x, and a period
    that is not 0 once derived. *)
Lemma draw_points_ok (s : RingSystem) :
  x_data s <> [] ->
  length (x_data s) = length (y_data s) ->
  period (resolve s) <> 0 ->
  draw_points s = (Ok tt, drawn s).
Proof.
  intros Hx Hl Hp. rewrite draw_points_resolve by assumption.
  destruct (resolve_samples s) as (Ex & Ey & _ & _).
  rewrite <- Ex. rewrite <- Ex, <- Ey in Hl.
  rewrite (bind_ok _ _ _ _ _ (ring_loop_all (resolve s) Hp Hl)).
  apply render_ok. rewrite Ey. intros Hy. rewrite Ex, Ey, Hy in Hl.
  apply length_zero_iff_nil in Hl. contradiction.
Qed.

(** ** The largest and the smallest of a list *)

Lemma max_from_spec (l : list R) :
  forall m, (max_from m l = m \/ In (max_from m l) l) /\
            m <= max_from m l /\ (forall x, In x l -> x <= max_from m l).
Proof.
  induction l as [| y l IH]; intros m; cbn.
  - repeat split; [now left | lra | tauto].
  - unfold float_ltb. destruct (Rlt_dec m y) as [H | H].
    + destruct (IH y) as ([E | I] & Hle & Hall).
      * repeat split; [right; left; now rewrite E | lra |].
        intros x [<- | Hx]; [lra | auto].
      * repeat split; [right; now right | lra |].
        intros x [<- | Hx]; [lra | auto].
    + destruct (IH m) as ([E | I] & Hle & Hall).
      * repeat split; [now left | lra |].
        intros x [<- | Hx]; [lra | auto].
      * repeat split; [right; now right | lra |].
        intros x [<- | Hx]; [lra | auto].
Qed.

Lemma min_from_spec (l : list R) :
  forall m, (min_from m l = m \/ In (min_from m l) l) /\
            min_from m l <= m /\ (forall x, In x l -> min_from m l <= x).
Proof.
  induction l as [| y l IH]; intros m; cbn.
  - repeat split; [now left | lra | tauto].
  - unfold float_ltb. destruct (Rlt_dec y m) as [H | H].
    + destruct (IH y) as ([E | I] & Hle & Hall).
      * repeat split; [right; left; now rewrite E | lra |].
        intros x [<- | Hx]; [lra | auto].
      * repeat split; [right; now right | lra |].
        intros x [<- | Hx]; [lra | auto].
    + destruct (IH m) as ([E | I] & Hle & Hall).
      * repeat split; [now left | lra |].
        intros x [<- | Hx]; [lra | auto].
      * repeat split; [right; now right | lra |].
        intros x [<- | Hx]; [lra | auto].
Qed.

Lemma max_of_is_max (l : list R) : l <> [] -> is_max (max_of l) l.
Proof.
  destruct l as [| m l]; [contradiction | intros _]. cbn [max_of].
  destruct (max_from_spec l m) as ([E | I] & Hle & Hall); split.
  - left. now rewrite E.
  - intros x [<- | Hx]; auto.
  - now right.
  - intros x [<- | Hx]; auto.
Qed.

Lemma min_of_is_min (l : list R) : l <> [] -> is_min (min_of l) l.
Proof.
  destruct l as [| m l]; [contradiction | intros _]. cbn [min_of].
  destruct (min_from_spec l m) as ([E | I] & Hle & Hall); split.
  - left. now rewrite E.
  - intros x [<- | Hx]; auto.
  - now right.
  - intros x [<- | Hx]; auto.
Qed.

Lemma is_max_unique (l : list R) (a b : R) : is_max a l -> is_max b l -> a = b.
Proof. intros [Ia Ha] [Ib Hb]. apply Rle_antisym; auto. Qed.

Lemma is_min_unique (l : list R) (a b : R) : is_min a l -> is_min b l -> a = b.
Proof. intros [Ia Ha] [Ib Hb]. apply Rle_antisym; auto. Qed.

(** A single sample, or samples that all have the same x, and no period: the
    derived period is 0 and the first division of the loop raises. *)
Lemma draw_points_single_sample (x y : R) :
  draw_points (mkRingSystem None [x] [y] [] 0 0) =
    (Raise ZeroDivisionError, mkRingSystem None [x] [y] [] (- x) (x - x)).
Proof.
  rewrite draw_points_resolve by discriminate.
  unfold resolve. cbn [x_data period]. rewrite float_eqb_refl.
  cbn [x_data max_of min_of max_from min_from length seq ring_loop].
  unfold with_shift, with_period. cbn [fig x_data y_data fourier_data shift period].
  apply bind_raise. apply bind_raise. unfold ring_body.
  unfold bind at 1. unfold gets at 1. unfold bind at 1. unfold lift at 1.
  cbn [x_data py_index nth_error].
  unfold bind at 1. unfold gets at 1. unfold bind at 1. unfold lift at 1.
  cbn [y_data py_index nth_error].
  apply bind_raise. apply coordinate_to_ring_zero. cbn [period]. ring.
Qed.

(** ** The coordinate transform *)

(** C1.  Whenever the period is not 0, [coordinate_to_ring x y] returns, without
    touching the state, the pair [(y * cos t, y * sin t)] for the angle
    [t = ((x + shift) / period) * 2 pi]. *)
Theorem coordinate_to_ring_formula (s : RingSystem) (x y : R) :
  period s <> 0 ->
  coordinate_to_ring x y s =
    (Ok (y * cos ((x + shift s) / period s * (2 * PI)),
         y * sin ((x + shift s) / period s * (2 * PI))), s).
Proof. intros Hp. now rewrite coordinate_to_ring_ok. Qed.

Lemma coordinate_to_ring_formula_witness :
  coordinate_to_ring 3 2 (mkRingSystem None [] [] [] 1 4) =
    (Ok (2 * cos ((3 + 1) / 4 * (2 * PI)), 2 * sin ((3 + 1) / 4 * (2 * PI))),
     mkRingSystem None [] [] [] 1 4).
Proof.
  apply (coordinate_to_ring_formula (mkRingSystem None [] [] [] 1 4) 3 2).
  cbn. lra.
Defined.

(** C7.  For a positive period the point that [coordinate_to_ring x y] returns
    lies at distance [|y|] from the origin. *)
Theorem coordinate_to_ring_magnitude (s : RingSystem) (x y : R) :
  0 < period s ->
  exists re im : R,
    coordinate_to_ring x y s = (Ok (re, im), s) /\
    sqrt (re * re + im * im) = Rabs y.
Proof.
  intros Hp. eexists; eexists. split.
  - apply coordinate_to_ring_ok. lra.
  - set (t := ring_angle x (period s) (shift s)).
    replace (y * cos t * (y * cos t) + y * sin t * (y * sin t))
      with (Rsqr y * (Rsqr (sin t) + Rsqr (cos t))) by (unfold Rsqr; ring).
    rewrite sin2_cos2, Rmult_1_r. apply sqrt_Rsqr_abs.
Qed.

Lemma coordinate_to_ring_magnitude_witness :
  exists re im : R,
    coordinate_to_ring 3 (-2) (mkRingSystem None [] [] [] 1 4) =
      (Ok (re, im), mkRingSystem None [] [] [] 1 4) /\
    sqrt (re * re + im * im) = Rabs (-2).
Proof.
  apply (coordinate_to_ring_magnitude (mkRingSystem None [] [] [] 1 4) 3 (-2)).
  cbn. lra.
Defined.

(** ** [draw_points] and the period *)

(** C8.  With no samples [draw_points] returns without raising and leaves the
    whole state, samples, period, shift and [fourier_data] included, as it
    was. *)
Theorem draw_points_no_samples (s : RingSystem) :
  x_data s = [] ->
  draw_points s = (Ok tt, s) /\ ~ raises draw_points s.
Proof.
  intros H. split; [now apply draw_points_empty |].
  intros (e & s' & E). rewrite (draw_points_empty s H) in E. discriminate.
Qed.

Lemma draw_points_no_samples_witness :
  draw_points (mkRingSystem None [] [] [(2, (1, 0))] 1 2) =
    (Ok tt, mkRingSystem None [] [] [(2, (1, 0))] 1 2) /\
  ~ raises draw_points (mkRingSystem None [] [] [(2, (1, 0))] 1 2).
Proof.
  apply (draw_points_no_samples (mkRingSystem None [] [] [(2, (1, 0))] 1 2)).
  reflexivity.
Defined.

(** C2.  With samples and a period of 0, [draw_points] first sets the period
    to the largest minus the smallest x coordinate and the shift to minus the
    smallest, and runs its loop over the samples in the state so changed;
    both values are still in place when it is done.  Samples whose x spans
    -10 to 10 give the period 20 and the shift 10. *)
Theorem draw_points_auto_period (s : RingSystem) :
  x_data s <> [] ->
  period s = 0 ->
  exists hi lo : R,
    is_max hi (x_data s) /\ is_min lo (x_data s) /\
    draw_points s =
      (a <- ring_loop (seq 0 (length (x_data s))) (mkAcc 0 0 [] []) ;; render a)
        (with_shift (- lo) (with_period (hi - lo) s)) /\
    period (state_of (draw_points s)) = hi - lo /\
    shift (state_of (draw_points s)) = - lo /\
    (lo = -10 -> hi = 10 ->
     period (state_of (draw_points s)) = 20 /\ shift (state_of (draw_points s)) = 10).
Proof.
  intros Hx Hp. exists (max_of (x_data s)), (min_of (x_data s)).
  assert (Hr : resolve s =
               with_shift (- min_of (x_data s))
                 (with_period (max_of (x_data s) - min_of (x_data s)) s)).
  { unfold resolve. destruct (x_data s); [contradiction |].
    now rewrite (float_eqb_true _ _ Hp). }
  pose proof (draw_points_core s) as Hc. rewrite Hr in Hc.
  apply core_eq in Hc. destruct Hc as (_ & _ & Hs & Hq).
  cbn [with_shift with_period shift period] in Hs, Hq.
  split; [now apply max_of_is_max |].
  split; [now apply min_of_is_min |].
  split; [rewrite <- Hr; now apply draw_points_resolve |].
  unfold state_of. split; [exact Hq |]. split; [exact Hs |].
  intros El Eh. rewrite Hq, Hs, El, Eh. split; lra.
Qed.

Lemma draw_points_auto_period_witness :
  period (state_of (draw_points (mkRingSystem None [-10; 0; 10] [1; 2; 3] [] 0 0))) = 20 /\
  shift (state_of (draw_points (mkRingSystem None [-10; 0; 10] [1; 2; 3] [] 0 0))) = 10.
Proof.
  destruct (draw_points_auto_period (mkRingSystem None [-10; 0; 10] [1; 2; 3] [] 0 0))
    as (hi & lo & Hhi & Hlo & _ & _ & _ & H).
  - cbn. discriminate.
  - reflexivity.
  - apply H.
    + apply (is_min_unique [-10; 0; 10]); [exact Hlo |].
      split; [now left |]. intros x [<- | [<- | [<- | []]]]; lra.
    + apply (is_max_unique [-10; 0; 10]); [exact Hhi |].
      split; [right; right; now left |]. intros x [<- | [<- | [<- | []]]]; lra.
Defined.

(** ** The centroid *)

Lemma ring_points_length (s : RingSystem) :
  well_formed s -> length (ring_points s) = length (x_data s).
Proof.
  unfold well_formed, ring_points, samples. intros H.
  rewrite length_map, length_combine, <- H. apply Nat.min_id.
Qed.

Lemma resolve_well_formed (s : RingSystem) : well_formed s -> well_formed (resolve s).
Proof.
  unfold well_formed. destruct (resolve_samples s) as (Ex & Ey & _). now rewrite Ex, Ey.
Qed.

(** Dividing each term by the number of samples and adding up gives the
    mean. *)
Lemma centroid_mean (s : RingSystem) :
  well_formed s ->
  centroid s = (mean (map fst (ring_points (resolve s))),
                mean (map snd (ring_points (resolve s)))).
Proof.
  intros H. apply resolve_well_formed in H.
  unfold centroid, mean. rewrite accumulate_mean_x, accumulate_mean_y.
  rewrite !length_map, (ring_points_length _ H). cbn [mean_x mean_y].
  rewrite <- H. f_equal; ring.
Qed.

Lemma drawn_fields (s : RingSystem) :
  x_data (drawn s) = x_data s /\ y_data (drawn s) = y_data s /\
  shift (drawn s) = shift (resolve s) /\ period (drawn s) = period (resolve s) /\
  fourier_data (drawn s) =
    dict_set (fourier_data s) (period (resolve s)) (centroid s).
Proof.
  destruct (resolve_samples s) as (Ex & Ey & Ef & _).
  unfold drawn, rendered, centroid. cbn [x_data y_data shift period fourier_data].
  rewrite Ex, Ey, Ef. repeat split.
Qed.

(** C3.  With samples, one y for each x, and a period that is not 0 once
    resolved, [draw_points] returns, and the centroid it shows on the ring plot
    and records in [fourier_data] under the period is the arithmetic mean of
    the real parts and the arithmetic mean of the imaginary parts of the ring
    points of all samples. *)
Theorem draw_points_centroid_is_mean (s : RingSystem) :
  x_data s <> [] ->
  length (x_data s) = length (y_data s) ->
  period (resolve s) <> 0 ->
  exists (s' : RingSystem) (g : figure),
    draw_points s = (Ok tt, s') /\
    fig s' = Some g /\
    length (ring_points (resolve s)) = length (x_data s) /\
    plot_xdata g = map fst (ring_points (resolve s)) /\
    plot_ydata g = map snd (ring_points (resolve s)) /\
    scatter g = [(mean (map fst (ring_points (resolve s))),
                  mean (map snd (ring_points (resolve s))))] /\
    dict_get (fourier_data s') (period s') =
      Ok (mean (map fst (ring_points (resolve s))),
          mean (map snd (ring_points (resolve s)))).
Proof.
  intros Hx Hl Hp. eexists; eexists.
  split; [now apply draw_points_ok |].
  split; [reflexivity |].
  rewrite <- (centroid_mean s Hl).
  destruct (resolve_samples s) as (Ex & _).
  split; [rewrite <- Ex; apply ring_points_length; now apply resolve_well_formed |].
  cbn [plot_xdata plot_ydata scatter].
  rewrite accumulate_x_ring_vec, accumulate_y_ring_vec.
  repeat split.
  destruct (drawn_fields s) as (_ & _ & _ & Eq & Ed).
  rewrite Eq, Ed. apply dict_get_set_same.
Qed.

Lemma draw_points_centroid_is_mean_witness :
  exists (s' : RingSystem) (g : figure),
    draw_points (mkRingSystem None [0; 1] [1; 3] [] 0 2) = (Ok tt, s') /\
    fig s' = Some g /\
    length (ring_points (resolve (mkRingSystem None [0; 1] [1; 3] [] 0 2))) = 2%nat /\
    plot_xdata g = map fst (ring_points (resolve (mkRingSystem None [0; 1] [1; 3] [] 0 2))) /\
    plot_ydata g = map snd (ring_points (resolve (mkRingSystem None [0; 1] [1; 3] [] 0 2))) /\
    scatter g = [(mean (map fst (ring_points (resolve (mkRingSystem None [0; 1] [1; 3] [] 0 2)))),
                  mean (map snd (ring_points (resolve (mkRingSystem None [0; 1] [1; 3] [] 0 2)))))] /\
    dict_get (fourier_data s') (period s') =
      Ok (mean (map fst (ring_points (resolve (mkRingSystem None [0; 1] [1; 3] [] 0 2)))),
          mean (map snd (ring_points (resolve (mkRingSystem None [0; 1] [1; 3] [] 0 2))))).
Proof.
  apply (draw_points_centroid_is_mean (mkRingSystem None [0; 1] [1; 3] [] 0 2)).
  - cbn. discriminate.
  - reflexivity.
  - unfold resolve. cbn [x_data period].
    rewrite (float_eqb_false 2 0) by lra. cbn. lra.
Defined.

(** ** Selecting a period *)

Lemma resolve_fixed (s : RingSystem) : period s <> 0 -> resolve s = s.
Proof.
  intros H. unfold resolve. destruct (x_data s); [reflexivity |].
  now rewrite (float_eqb_false _ _ H).
Qed.

Lemma rendered_idem (a : ring_acc) (s : RingSystem) :
  rendered a (rendered a s) = rendered a s.
Proof.
  unfold rendered. cbn [x_data y_data fourier_data shift period].
  now rewrite dict_set_idem.
Qed.

(** Drawing again, with nothing changed in between, changes nothing. *)
Lemma drawn_idem (s : RingSystem) : period s <> 0 -> drawn (drawn s) = drawn s.
Proof.
  intros Hp.
  assert (Hr : resolve (drawn s) = drawn s).
  { apply resolve_fixed. destruct (drawn_fields s) as (_ & _ & _ & E & _).
    now rewrite E, (resolve_fixed s Hp). }
  unfold drawn at 1. rewrite Hr. unfold drawn. rewrite (resolve_fixed s Hp).
  unfold ring_points, samples at 1. unfold rendered at 2 3 4 5 6.
  cbn [x_data y_data shift period]. apply rendered_idem.
Qed.

Lemma drawn_well_formed (s : RingSystem) : well_formed s -> well_formed (drawn s).
Proof.
  unfold well_formed. destruct (drawn_fields s) as (Ex & Ey & _). now rewrite Ex, Ey.
Qed.

Lemma draw_points_fixed (s : RingSystem) :
  well_formed s -> period s <> 0 ->
  draw_points s = (Ok tt, match x_data s with [] => s | _ :: _ => drawn s end).
Proof.
  intros Hw Hp. destruct (x_data s) eqn:E.
  - now apply draw_points_empty.
  - apply draw_points_ok; [rewrite E; discriminate | exact Hw |].
    now rewrite resolve_fixed.
Qed.

Lemma update_period_ok (s : RingSystem) (p : R) :
  well_formed s -> p <> 0 -> fig s <> None ->
  update_period p s =
    (Ok tt, match x_data s with
            | [] => with_period p s
            | _ :: _ => drawn (with_period p s)
            end).
Proof.
  intros Hw Hp Hf. unfold update_period.
  unfold bind at 1. unfold modify at 1.
  unfold bind at 1.
  rewrite (draw_points_fixed (with_period p s)) by assumption.
  cbn [with_period x_data].
  destruct (x_data s); unfold bind, gets, ret; cbn [with_period fig drawn rendered].
  - destruct (fig s); [reflexivity | contradiction].
  - reflexivity.
Qed.

Lemma set_period_ok (s : RingSystem) (p sh : R) :
  well_formed s -> p <> 0 ->
  set_period p sh s =
    (Ok tt, match fig s, x_data s with
            | Some _, _ :: _ => drawn (with_period p (with_shift sh s))
            | _, _ => with_period p (with_shift sh s)
            end).
Proof.
  intros Hw Hp. unfold set_period.
  unfold bind at 1. unfold modify at 1.
  unfold bind at 1. unfold modify at 1.
  unfold bind at 1. unfold gets at 1.
  cbn [with_period with_shift fig].
  destruct (fig s) as [g |] eqn:Ef.
  - unfold bind, gets. cbn [period].
    rewrite update_period_ok.
    + cbn [with_period with_shift x_data period]. destruct (x_data s); reflexivity.
    + exact Hw.
    + exact Hp.
    + cbn [with_period with_shift fig]. rewrite Ef. discriminate.
  - destruct (x_data s); reflexivity.
Qed.

Lemma select_period_ok (s : RingSystem) (p : R) :
  well_formed s -> p <> 0 ->
  select_period p s =
    (Ok tt, match x_data s with
            | [] => with_period p (with_shift 0 s)
            | _ :: _ => drawn (with_period p (with_shift 0 s))
            end).
Proof.
  intros Hw Hp. unfold select_period.
  rewrite (bind_ok _ _ _ _ _ (set_period_ok s p 0 Hw Hp)).
  destruct (fig s) as [g |], (x_data s) as [| x l] eqn:Ex.
  - rewrite draw_points_fixed by assumption.
    cbn [with_period with_shift x_data]. now rewrite Ex.
  - rewrite draw_points_fixed.
    + destruct (drawn_fields (with_period p (with_shift 0 s))) as (E & _).
      rewrite E. cbn [with_period x_data with_shift]. rewrite Ex.
      now rewrite drawn_idem.
    + now apply drawn_well_formed.
    + destruct (drawn_fields (with_period p (with_shift 0 s))) as (_ & _ & _ & E & _).
      now rewrite E, resolve_fixed.
  - rewrite draw_points_fixed by assumption.
    cbn [with_period with_shift x_data]. now rewrite Ex.
  - rewrite draw_points_fixed by assumption.
    cbn [with_period with_shift x_data]. now rewrite Ex.
Qed.

Lemma select_period_again (s : RingSystem) (p : R) :
  period s = p -> shift s = 0 -> with_period p (with_shift 0 s) = s.
Proof. destruct s. cbn. now intros -> ->. Qed.

(** C5.  For a positive period [p] and any samples, [set_period(p)] followed by
    [draw_points()] returns, and doing the same again returns in the very same
    state: [fourier_data] holds the same entry for [p] after both rounds, which
    is the centroid when there are samples (whatever value [p] had before), and
    its keys stay distinct. *)
Theorem select_period_twice (s0 : RingSystem) (p : R) :
  0 < p ->
  length (x_data s0) = length (y_data s0) ->
  exists s1 s2 : RingSystem,
    select_period p s0 = (Ok tt, s1) /\
    select_period p s1 = (Ok tt, s2) /\
    s2 = s1 /\
    dict_get (fourier_data s2) p = dict_get (fourier_data s1) p /\
    (x_data s0 <> [] ->
     fourier_data s1 =
       dict_set (fourier_data s0) p (centroid (with_period p (with_shift 0 s0))) /\
     dict_get (fourier_data s1) p =
       Ok (centroid (with_period p (with_shift 0 s0)))) /\
    (NoDup (dict_keys (fourier_data s0)) ->
     NoDup (dict_keys (fourier_data s1)) /\ NoDup (dict_keys (fourier_data s2))).
Proof.
  intros Hpos Hw. assert (Hp : p <> 0) by lra.
  set (t := with_period p (with_shift 0 s0)).
  assert (Ht : period t <> 0) by exact Hp.
  set (s1 := match x_data s0 with [] => t | _ :: _ => drawn t end).
  assert (H1 : select_period p s0 = (Ok tt, s1)) by now apply select_period_ok.
  assert (Hwt : well_formed t) by exact Hw.
  assert (Hw1 : well_formed s1).
  { unfold s1. destruct (x_data s0); [exact Hwt | now apply drawn_well_formed]. }
  assert (Hfix : with_period p (with_shift 0 s1) = s1).
  { apply select_period_again; unfold s1; destruct (x_data s0); try reflexivity.
    - destruct (drawn_fields t) as (_ & _ & _ & E & _). now rewrite E, resolve_fixed.
    - destruct (drawn_fields t) as (_ & _ & E & _). now rewrite E, resolve_fixed. }
  assert (H2 : select_period p s1 = (Ok tt, s1)).
  { rewrite (select_period_ok s1 p Hw1 Hp), Hfix. f_equal.
    unfold s1. destruct (x_data s0) as [| x l] eqn:Ex.
    - unfold t. cbn [with_period with_shift x_data]. now rewrite Ex.
    - destruct (drawn_fields t) as (E & _). rewrite E.
      unfold t at 1. cbn [with_period with_shift x_data]. rewrite Ex.
      now apply drawn_idem. }
  assert (Hd : x_data s0 <> [] ->
               fourier_data s1 = dict_set (fourier_data s0) p (centroid t)).
  { intros Hx. unfold s1. destruct (x_data s0); [contradiction |].
    destruct (drawn_fields t) as (_ & _ & _ & _ & E).
    now rewrite E, resolve_fixed. }
  exists s1, s1.
  split; [exact H1 |]. split; [exact H2 |]. split; [reflexivity |].
  split; [reflexivity |]. split.
  - intros Hx. split; [now apply Hd |]. rewrite (Hd Hx). apply dict_get_set_same.
  - intros Hn. assert (Hn1 : NoDup (dict_keys (fourier_data s1))); [| now split].
    destruct (x_data s0) as [| x l] eqn:Ex.
    + unfold s1. exact Hn.
    + rewrite Hd by discriminate. now apply dict_set_NoDup.
Qed.

Lemma select_period_twice_witness :
  exists s1 s2 : RingSystem,
    select_period 2 (mkRingSystem None [0; 1] [1; 3] [(2, (7, 7))] 0 0) = (Ok tt, s1) /\
    select_period 2 s1 = (Ok tt, s2) /\
    s2 = s1 /\
    dict_get (fourier_data s2) 2 = dict_get (fourier_data s1) 2.
Proof.
  destruct (select_period_twice (mkRingSystem None [0; 1] [1; 3] [(2, (7, 7))] 0 0) 2)
    as (s1 & s2 & H1 & H2 & E & Hg & _).
  - lra.
  - reflexivity.
  - exists s1, s2. repeat split; assumption.
Defined.

(** ** The axis limits of the ring plot *)

(** The limits that [draw_points] gives the ring plot come from the largest y
    coordinate. *)
Lemma draw_points_boundary (s : RingSystem) :
  x_data s <> [] ->
  length (x_data s) = length (y_data s) ->
  period (resolve s) <> 0 ->
  exists (s' : RingSystem) (g : figure),
    draw_points s = (Ok tt, s') /\ fig s' = Some g /\
    plot_ylim g = (- max_of (y_data s), max_of (y_data s)) /\
    plot_xlim g = (- max_of (y_data s), max_of (y_data s)).
Proof.
  intros Hx Hl Hp. eexists; eexists.
  split; [now apply draw_points_ok |]. split; [reflexivity |].
  destruct (resolve_samples s) as (_ & Ey & _).
  cbn [plot_ylim plot_xlim]. now rewrite Ey.
Qed.

(** C6.  The samples (0, -3) and (1, 1) under the period 1: [draw_points] sets
    the limits of the ring plot to [-1, 1], from the largest y, although the
    largest [|y|] is 3 and the first ring point lies at x = -3. *)
Theorem draw_points_boundary_negative_sample :
  exists (s' : RingSystem) (g : figure),
    draw_points (mkRingSystem None [0; 1] [-3; 1] [] 0 1) = (Ok tt, s') /\
    fig s' = Some g /\
    plot_ylim g = (-1, 1) /\
    plot_xlim g = (-1, 1) /\
    hd 0 (plot_xdata g) = -3 /\
    is_max 3 (map Rabs (y_data (mkRingSystem None [0; 1] [-3; 1] [] 0 1))).
Proof.
  assert (Hp : period (resolve (mkRingSystem None [0; 1] [-3; 1] [] 0 1)) <> 0).
  { unfold resolve. cbn [x_data period]. rewrite (float_eqb_false 1 0) by lra. cbn. lra. }
  assert (Hm : max_of [-3; 1] = 1).
  { cbn. now rewrite float_ltb_true by lra. }
  eexists; eexists. split; [apply draw_points_ok; [discriminate | reflexivity | exact Hp] |].
  split; [reflexivity |].
  rewrite (resolve_fixed (mkRingSystem None [0; 1] [-3; 1] [] 0 1)) by (cbn; lra).
  cbn [plot_ylim plot_xlim plot_xdata y_data x_data]. rewrite Hm.
  split; [reflexivity |]. split; [reflexivity |]. split.
  - rewrite accumulate_x_ring_vec. cbn. unfold ring_angle.
    replace ((0 + 0) / 1 * (2 * PI)) with 0 by lra. rewrite cos_0. lra.
  - cbn [map]. rewrite Rabs_left by lra. rewrite Rabs_right by lra. split.
    + left. lra.
    + intros x [<- | [<- | []]]; lra.
Qed.

(** ** Sampling a function *)

Lemma ZceilZ (z : Z) : Zceil (IZR z) = z.
Proof. unfold Zceil. rewrite ZfloorNZ. lia. Qed.

(** The spacing and the number of the values that [add_function] asks
    [arange] for: one more than [samples]. *)
Lemma arange_samples (from_x to_x : R) (samples : Z) :
  (0 < samples)%Z -> from_x <> to_x ->
  arange from_x (to_x + (to_x - from_x) / IZR samples) ((to_x - from_x) / IZR samples) =
    Ok (map (fun i => from_x + INR i * ((to_x - from_x) / IZR samples))
            (seq 0 (Z.to_nat samples + 1))).
Proof.
  intros Hn Hd.
  assert (Hz : IZR samples <> 0) by (apply not_0_IZR; lia).
  assert (Hs : (to_x - from_x) / IZR samples <> 0).
  { intros E. apply Hd. apply (f_equal (fun r => r * IZR samples)) in E.
    unfold Rdiv in E. rewrite Rmult_assoc, Rinv_l, Rmult_1_r, Rmult_0_l in E by assumption.
    lra. }
  unfold arange. rewrite (py_div_ok _ _ Hs). cbn [result_bind].
  replace ((to_x + (to_x - from_x) / IZR samples - from_x) / ((to_x - from_x) / IZR samples))
    with (IZR (samples + 1)).
  - rewrite ZceilZ. now rewrite Z2Nat.inj_add by lia.
  - rewrite plus_IZR. field. split; [assumption | lra].
Qed.

Lemma for_each_add_point (f : R -> R) (xs : list R) :
  forall s,
    for_each xs (fun x => add_point x (f x)) s =
      (Ok tt, with_y_data (y_data s ++ map f xs) (with_x_data (x_data s ++ xs) s)).
Proof.
  induction xs as [| x xs IH]; intros s; cbn [for_each].
  - unfold ret. destruct s. cbn. now rewrite !app_nil_r.
  - unfold bind at 1. unfold add_point. run_fields. rewrite IH.
    cbn [with_x_data with_y_data x_data y_data fig fourier_data shift period map].
    now rewrite <- !app_assoc.
Qed.

(** What [add_function] does for a positive number of samples over an interval
    that is not a single point. *)
Lemma add_function_ok (from_x to_x : R) (samples : Z) (f : R -> R) (s : RingSystem) :
  (0 < samples)%Z -> from_x <> to_x ->
  add_function from_x to_x samples f s =
    (Ok tt,
     let xs := map (fun i => from_x + INR i * ((to_x - from_x) / IZR samples))
                   (seq 0 (Z.to_nat samples + 1)) in
     mkRingSystem (fig s) xs (map f xs) [] (shift s) (period s)).
Proof.
  intros Hn Hd. unfold add_function, reset_points.
  unfold bind at 1. unfold bind at 1. unfold modify at 1.
  unfold bind at 1. unfold modify at 1. unfold modify at 1.
  unfold bind at 1. unfold lift at 1.
  rewrite py_div_ok by (apply not_0_IZR; lia).
  unfold bind at 1. unfold lift at 1.
  rewrite (arange_samples _ _ _ Hn Hd). rewrite for_each_add_point. reflexivity.
Qed.

(** The x coordinates that [add_function] stores are one more than [samples]. *)
Lemma add_function_length (from_x to_x : R) (samples : Z) (f : R -> R) (s : RingSystem) :
  (0 < samples)%Z -> from_x <> to_x ->
  length (x_data (state_of (add_function from_x to_x samples f s))) =
    (Z.to_nat samples + 1)%nat.
Proof.
  intros Hn Hd. rewrite (add_function_ok _ _ _ _ _ Hn Hd).
  cbn [state_of snd x_data]. now rewrite length_map, length_seq.
Qed.

(** C4.  [add_function(0, 1, 2, f)] on any state: the old samples and
    [fourier_data] are gone, and the new x coordinates are 0, 1/2 and 1 with
    their images under [f], which is three samples and not two. *)
Theorem add_function_one_more_sample (s : RingSystem) (f : R -> R) :
  exists s' : RingSystem,
    add_function 0 1 2 f s = (Ok tt, s') /\
    x_data s' = [0; 1 / 2; 1] /\
    y_data s' = [f 0; f (1 / 2); f 1] /\
    fourier_data s' = [] /\
    length (x_data s') = 3%nat.
Proof.
  eexists. split; [apply add_function_ok; [lia | lra] |].
  cbn [x_data y_data fourier_data].
  assert (E : map (fun i => 0 + INR i * ((1 - 0) / 2)) (seq 0 (Z.to_nat 2 + 1)) =
              [0; 1 / 2; 1]).
  { change (Z.to_nat 2 + 1)%nat with 3%nat. cbn [seq map INR].
    f_equal; [lra | f_equal; [lra | f_equal; lra]]. }
  rewrite E. repeat split.
Qed.

(** ** A negative period *)

(** C9, as stated, fails: on a new object [set_period(-1)] raises nothing and
    returns with the period -1 stored. *)
Lemma set_period_negative_returns :
  set_period (-1) 0 init = (Ok tt, mkRingSystem None [] [] [] 0 (-1)) /\
  ~ raises (set_period (-1) 0) init.
Proof.
  assert (E : set_period (-1) 0 init = (Ok tt, mkRingSystem None [] [] [] 0 (-1)))
    by reflexivity.
  split; [exact E |]. intros (e & s' & H). rewrite E in H. discriminate.
Qed.

(** C9, amended.  [set_period(p, shift)] with a negative [p] raises nothing:
    it returns with [p] stored as the period and [shift] as the shift. *)
Theorem set_period_negative_stored (s : RingSystem) (p sh : R) :
  p < 0 ->
  length (x_data s) = length (y_data s) ->
  exists s' : RingSystem,
    set_period p sh s = (Ok tt, s') /\
    period s' = p /\ shift s' = sh /\
    ~ raises (set_period p sh) s.
Proof.
  intros Hneg Hw. assert (Hp : p <> 0) by lra.
  pose proof (set_period_ok s p sh Hw Hp) as E.
  eexists. split; [exact E |].
  assert (Hr : resolve (with_period p (with_shift sh s)) = with_period p (with_shift sh s))
    by now apply resolve_fixed.
  destruct (drawn_fields (with_period p (with_shift sh s))) as (_ & _ & Es & Ep & _).
  rewrite Hr in Es, Ep.
  repeat split.
  - destruct (fig s), (x_data s); try reflexivity. exact Ep.
  - destruct (fig s), (x_data s); try reflexivity. exact Es.
  - intros (e & s' & H). rewrite E in H. discriminate.
Qed.

Lemma set_period_negative_stored_witness :
  exists s' : RingSystem,
    set_period (-5) 1 (mkRingSystem None [0; 1] [1; 3] [] 0 2) = (Ok tt, s') /\
    period s' = -5 /\ shift s' = 1 /\
    ~ raises (set_period (-5) 1) (mkRingSystem None [0; 1] [1; 3] [] 0 2).
Proof.
  apply (set_period_negative_stored (mkRingSystem None [0; 1] [1; 3] [] 0 2) (-5) 1).
  - lra.
  - reflexivity.
Defined.

(** ** One y for each x *)

Section Preserves.

Context (P : RingSystem -> Prop).

Lemma preserves_bind {A C : Type} (c : M A) (k : A -> M C) :
  preserves P c -> (forall a, preserves P (k a)) -> preserves P (bind c k).
Proof.
  intros Hc Hk s Hs. unfold bind, state_of. specialize (Hc s Hs). unfold state_of in Hc.
  destruct (c s) as [[a | e] s']; cbn [snd] in *.
  - now apply Hk.
  - exact Hc.
Qed.

Lemma preserves_modify (g : RingSystem -> RingSystem) :
  (forall s, P s -> P (g s)) -> preserves P (modify g).
Proof. intros H s Hs. now apply H. Qed.

Lemma preserves_pure {A : Type} (c : M A) :
  (forall s, snd (c s) = s) -> preserves P c.
Proof. intros H s Hs. unfold state_of. now rewrite H. Qed.

Lemma preserves_for_each {A : Type} (l : list A) (body : A -> M unit) :
  (forall a, preserves P (body a)) -> preserves P (for_each l body).
Proof.
  intros H. induction l as [| a l IH]; cbn [for_each].
  - now apply preserves_pure.
  - apply preserves_bind; [apply H | intros _; exact IH].
Qed.

End Preserves.

Lemma add_point_well_formed (x y : R) : preserves well_formed (add_point x y).
Proof.
  intros s H. unfold well_formed in *. cbn. rewrite !length_app, H. reflexivity.
Qed.

Lemma draw_points_well_formed : preserves well_formed draw_points.
Proof.
  intros s H. unfold well_formed, state_of in *.
  destruct (core_eq _ _ (draw_points_core s)) as (Ex & Ey & _).
  destruct (resolve_samples s) as (Rx & Ry & _).
  now rewrite Ex, Ey, Rx, Ry.
Qed.

Lemma update_period_well_formed (p : R) : preserves well_formed (update_period p).
Proof.
  unfold update_period.
  apply preserves_bind; [apply preserves_modify; intros s H; exact H | intros _].
  apply preserves_bind; [apply draw_points_well_formed | intros _].
  apply preserves_bind; [now apply preserves_pure | intros [g |]; now apply preserves_pure].
Qed.

Lemma set_period_well_formed (p sh : R) : preserves well_formed (set_period p sh).
Proof.
  unfold set_period.
  apply preserves_bind; [apply preserves_modify; intros s H; exact H | intros _].
  apply preserves_bind; [apply preserves_modify; intros s H; exact H | intros _].
  apply preserves_bind; [now apply preserves_pure | intros [g |]].
  - apply preserves_bind; [now apply preserves_pure | intros q].
    apply update_period_well_formed.
  - now apply preserves_pure.
Qed.

Lemma reset_points_well_formed (s : RingSystem) :
  well_formed (state_of (reset_points s)).
Proof. reflexivity. Qed.

Lemma add_function_well_formed (from_x to_x : R) (samples : Z) (f : R -> R) (s : RingSystem) :
  well_formed (state_of (add_function from_x to_x samples f s)).
Proof.
  unfold add_function.
  change (bind reset_points ?k s) with (k tt (state_of (reset_points s))).
  apply preserves_bind; [now apply preserves_pure | intros step | apply reset_points_well_formed].
  apply preserves_bind; [now apply preserves_pure | intros xs].
  apply preserves_for_each. intros x. apply add_point_well_formed.
Qed.

Lemma run_op_well_formed (o : op) : preserves well_formed (run_op o).
Proof.
  destruct o; cbn [run_op].
  - apply add_point_well_formed.
  - intros s _. apply add_function_well_formed.
  - apply set_period_well_formed.
  - apply update_period_well_formed.
  - intros s _. apply reset_points_well_formed.
  - apply draw_points_well_formed.
Qed.

(** C10.  Each public operation, returning or raising, takes a state with
    as many y as x coordinates to another such state, and every state that
    calls on a new object can reach has as many y as x coordinates. *)
Theorem lengths_agree (s : RingSystem) (o : op) :
  (length (x_data s) = length (y_data s) ->
   length (x_data (state_of (run_op o s))) = length (y_data (state_of (run_op o s)))) /\
  (reachable s -> length (x_data s) = length (y_data s)).
Proof.
  split.
  - apply (run_op_well_formed o s).
  - intros H. induction H as [| s' o' H IH].
    + reflexivity.
    + now apply (run_op_well_formed o' s').
Qed.

Lemma lengths_agree_witness :
  length (x_data (state_of (run_op DrawPoints
            (state_of (run_op (AddPoint 1 2) init))))) =
  length (y_data (state_of (run_op DrawPoints
            (state_of (run_op (AddPoint 1 2) init))))) /\
  length (x_data (state_of (run_op (AddPoint 1 2) init))) =
  length (y_data (state_of (run_op (AddPoint 1 2) init))).
Proof.
  destruct (lengths_agree (state_of (run_op (AddPoint 1 2) init)) DrawPoints) as [Hstep Hreach].
  split.
  - apply Hstep. reflexivity.
  - apply Hreach. apply reachable_step. apply reachable_init.
Defined.

(** ** The data set of the entry point *)

(** [add_function(-10, 10, 1000, f)], then [set_period(0)], then
    [draw_points()]: the x coordinates run from -10 to 10 in 1001 steps of
    1/50, so that the period becomes 20 and the shift 10. *)
Lemma entry_point_auto_period (f : R -> R) :
  exists s0 s1 : RingSystem,
    add_function (-10) 10 1000 f init = (Ok tt, s0) /\
    set_period 0 0 s0 = (Ok tt, s1) /\
    length (x_data s1) = 1001%nat /\
    is_min (-10) (x_data s1) /\ is_max 10 (x_data s1) /\
    period (state_of (draw_points s1)) = 20 /\
    shift (state_of (draw_points s1)) = 10.
Proof.
  assert (H0 := add_function_ok (-10) 10 1000 f init ltac:(lia) ltac:(lra)).
  cbv zeta in H0. cbn [init fig shift period] in H0.
  set (xs := map (fun i => -10 + INR i * ((10 - -10) / 1000))
                 (seq 0 (Z.to_nat 1000 + 1))) in *.
  assert (Hmin : is_min (-10) xs).
  { split.
    - apply in_map_iff. exists 0%nat. split; [cbn; lra |]. apply in_seq. lia.
    - intros x Hx. apply in_map_iff in Hx. destruct Hx as (i & <- & _).
      pose proof (pos_INR i). lra. }
  assert (Hmax : is_max 10 xs).
  { split.
    - apply in_map_iff. exists 1000%nat. split.
      + rewrite INR_IZR_INZ. change (Z.of_nat 1000) with 1000%Z. lra.
      + apply in_seq. lia.
    - intros x Hx. apply in_map_iff in Hx. destruct Hx as (i & <- & Hi).
      apply in_seq in Hi. assert (Hle : (i <= 1000)%nat) by lia.
      apply le_INR in Hle. rewrite (INR_IZR_INZ 1000) in Hle.
      change (Z.of_nat 1000) with 1000%Z in Hle. lra. }
  exists (mkRingSystem None xs (map f xs) [] 0 0), (mkRingSystem None xs (map f xs) [] 0 0).
  split; [exact H0 |]. split; [reflexivity |].
  cbn [x_data].
  split; [unfold xs; now rewrite length_map, length_seq |].
  split; [exact Hmin |]. split; [exact Hmax |].
  match goal with |- context [draw_points ?s] => set (s1 := s) end.
  assert (Hx : x_data s1 <> []).
  { intros E. destruct Hmin as [Hin _]. change (x_data s1) with xs in E.
    rewrite E in Hin. contradiction. }
  pose proof (draw_points_core s1) as Hc. apply core_eq in Hc.
  destruct Hc as (_ & _ & Hs & Hp).
  assert (Hr : resolve s1 =
               with_shift (- min_of xs) (with_period (max_of xs - min_of xs) s1)).
  { unfold resolve. change (x_data s1) with xs in *. destruct xs; [contradiction |].
    change (period s1) with 0. now rewrite float_eqb_refl. }
  rewrite Hr in Hs, Hp. cbn [with_shift with_period shift period] in Hs, Hp.
  change (x_data s1) with xs in Hx.
  rewrite (is_max_unique xs _ _ (max_of_is_max xs Hx) Hmax) in Hp.
  rewrite (is_min_unique xs _ _ (min_of_is_min xs Hx) Hmin) in Hp, Hs.
  unfold state_of. rewrite Hp, Hs. split; lra.
Qed.

(** * Further properties of the methods *)

(** ** The ring mapping turns with x *)

(** X1.  Moving x by whole periods gives the same point of the ring. *)
Theorem coordinate_to_ring_periodic (s : RingSystem) (x y : R) (k : nat) :
  period s <> 0 ->
  coordinate_to_ring (x + INR k * period s) y s = coordinate_to_ring x y s.
Proof.
  intros Hp. rewrite !coordinate_to_ring_ok by assumption.
  unfold ring_map, ring_angle.
  replace ((x + INR k * period s + shift s) / period s * (2 * PI))
    with ((x + shift s) / period s * (2 * PI) + 2 * INR k * PI) by (field; exact Hp).
  now rewrite cos_period, sin_period.
Qed.

Lemma coordinate_to_ring_periodic_witness :
  coordinate_to_ring (3 + INR 2 * 4) 2 (mkRingSystem None [] [] [] 1 4) =
  coordinate_to_ring 3 2 (mkRingSystem None [] [] [] 1 4).
Proof.
  apply (coordinate_to_ring_periodic (mkRingSystem None [] [] [] 1 4) 3 2 2).
  cbn. lra.
Defined.

(** X2.  Under the opposite period the ring is wound the other way: the point is
    the mirror image in the real axis. *)
Theorem coordinate_to_ring_opposite_period (s : RingSystem) (x y re im : R) :
  period s <> 0 ->
  coordinate_to_ring x y s = (Ok (re, im), s) ->
  coordinate_to_ring x y (with_period (- period s) s) =
    (Ok (re, - im), with_period (- period s) s).
Proof.
  intros Hp H. rewrite coordinate_to_ring_ok in H by assumption.
  injection H as <- <-.
  rewrite coordinate_to_ring_ok by (cbn [with_period period]; lra).
  cbn [with_period period shift]. unfold ring_map, ring_angle.
  replace ((x + shift s) / - period s * (2 * PI))
    with (- ((x + shift s) / period s * (2 * PI))) by (field; exact Hp).
  rewrite cos_neg, sin_neg. do 3 f_equal. ring.
Qed.

Lemma coordinate_to_ring_opposite_period_witness :
  coordinate_to_ring 3 2 (with_period (- 4) (mkRingSystem None [] [] [] 1 4)) =
    (Ok (2 * cos ((3 + 1) / 4 * (2 * PI)), - (2 * sin ((3 + 1) / 4 * (2 * PI)))),
     with_period (- 4) (mkRingSystem None [] [] [] 1 4)).
Proof.
  apply (coordinate_to_ring_opposite_period (mkRingSystem None [] [] [] 1 4) 3 2).
  - cbn. lra.
  - apply coordinate_to_ring_ok. cbn. lra.
Defined.

(** ** The ring plot and the centroid lie within the largest radius *)

Lemma ring_points_nth (s : RingSystem) (i : nat) :
  well_formed s -> (i < length (x_data s))%nat ->
  nth i (ring_points s) (0, 0) =
    ring_map (nth i (x_data s) 0) (nth i (y_data s) 0) (period s) (shift s).
Proof.
  intros Hw Hi. unfold ring_points, samples.
  set (g := fun xy : R * R => ring_map (fst xy) (snd xy) (period s) (shift s)).
  rewrite (nth_indep _ (0, 0) (g (0, 0))).
  - rewrite map_nth, combine_nth by exact Hw. reflexivity.
  - rewrite length_map, length_combine, <- Hw, Nat.min_id. exact Hi.
Qed.

Lemma ring_map_radius (x y p sh : R) :
  sqrt (fst (ring_map x y p sh) * fst (ring_map x y p sh) +
        snd (ring_map x y p sh) * snd (ring_map x y p sh)) = Rabs y.
Proof.
  unfold ring_map. cbn [fst snd]. set (t := ring_angle x p sh).
  replace (y * cos t * (y * cos t) + y * sin t * (y * sin t))
    with (Rsqr y * (Rsqr (sin t) + Rsqr (cos t))) by (unfold Rsqr; ring).
  rewrite sin2_cos2, Rmult_1_r. apply sqrt_Rsqr_abs.
Qed.

Lemma nth_map_fst (l : list (R * R)) (i : nat) :
  nth i (map fst l) 0 = fst (nth i l (0, 0)).
Proof. exact (map_nth fst l (0, 0) i). Qed.

Lemma nth_map_snd (l : list (R * R)) (i : nat) :
  nth i (map snd l) 0 = snd (nth i l (0, 0)).
Proof. exact (map_nth snd l (0, 0) i). Qed.

(** The ring plot of the state in which [draw_points] returns. *)
Lemma drawn_ring_plot (s : RingSystem) :
  exists g : figure,
    fig (drawn s) = Some g /\
    plot_xdata g = map fst (ring_points (resolve s)) /\
    plot_ydata g = map snd (ring_points (resolve s)) /\
    scatter g = [centroid s].
Proof.
  eexists. split; [reflexivity |]. cbn [plot_xdata plot_ydata scatter].
  rewrite accumulate_x_ring_vec, accumulate_y_ring_vec. repeat split.
Qed.

(** X3.  When [draw_points] returns, the ring plot has one point for each sample,
    in the order of the samples, and the i-th point lies at distance [|y|] of
    the i-th sample from the origin. *)
Theorem draw_points_ring_radius (s : RingSystem) :
  x_data s <> [] ->
  length (x_data s) = length (y_data s) ->
  period (resolve s) <> 0 ->
  exists (s' : RingSystem) (g : figure),
    draw_points s = (Ok tt, s') /\ fig s' = Some g /\
    length (plot_xdata g) = length (x_data s) /\
    length (plot_ydata g) = length (x_data s) /\
    forall i, (i < length (x_data s))%nat ->
      sqrt (nth i (plot_xdata g) 0 * nth i (plot_xdata g) 0 +
            nth i (plot_ydata g) 0 * nth i (plot_ydata g) 0) =
      Rabs (nth i (y_data s) 0).
Proof.
  intros Hx Hl Hp.
  destruct (drawn_ring_plot s) as (g & Hf & Hpx & Hpy & _).
  exists (drawn s), g. split; [now apply draw_points_ok |]. split; [exact Hf |].
  destruct (resolve_samples s) as (Ex & Ey & _).
  assert (Hw : well_formed (resolve s)) by now apply resolve_well_formed.
  rewrite Hpx, Hpy, !length_map, (ring_points_length _ Hw), Ex.
  split; [reflexivity |]. split; [reflexivity |].
  intros i Hi. rewrite <- Ex in Hi.
  rewrite nth_map_fst, nth_map_snd.
  rewrite (ring_points_nth _ i Hw Hi), ring_map_radius. now rewrite Ey.
Qed.

Lemma draw_points_ring_radius_witness :
  exists (s' : RingSystem) (g : figure),
    draw_points (mkRingSystem None [0; 1] [1; -3] [] 0 2) = (Ok tt, s') /\
    fig s' = Some g /\
    length (plot_xdata g) = 2%nat /\
    length (plot_ydata g) = 2%nat /\
    forall i, (i < 2)%nat ->
      sqrt (nth i (plot_xdata g) 0 * nth i (plot_xdata g) 0 +
            nth i (plot_ydata g) 0 * nth i (plot_ydata g) 0) =
      Rabs (nth i [1; -3] 0).
Proof.
  apply (draw_points_ring_radius (mkRingSystem None [0; 1] [1; -3] [] 0 2)).
  - cbn. discriminate.
  - reflexivity.
  - unfold resolve. cbn [x_data period].
    rewrite (float_eqb_false 2 0) by lra. cbn. lra.
Defined.

Lemma sum_bound (B : R) (l : list R) :
  (forall v, In v l -> Rabs v <= B) -> Rabs (sum l) <= INR (length l) * B.
Proof.
  induction l as [| v l IH]; intros H.
  - cbn. rewrite Rabs_R0. lra.
  - change (sum (v :: l)) with (v + sum l). rewrite length_cons, S_INR.
    pose proof (Rabs_triang v (sum l)) as Ht.
    pose proof (H v (or_introl eq_refl)) as Hv.
    pose proof (IH (fun w Hw => H w (or_intror Hw))) as Hs. lra.
Qed.

Lemma mean_bound (B : R) (l : list R) :
  l <> [] -> (forall v, In v l -> Rabs v <= B) -> Rabs (mean l) <= B.
Proof.
  intros Hl H. unfold mean.
  assert (Hn : 0 < INR (length l)).
  { apply lt_0_INR. destruct l; [contradiction | cbn; lia]. }
  unfold Rdiv. rewrite Rabs_mult, (Rabs_right (/ _)).
  - apply (Rmult_le_reg_r (INR (length l))); [exact Hn |].
    rewrite Rmult_assoc, Rinv_l, Rmult_1_r by lra.
    rewrite (Rmult_comm B). now apply sum_bound.
  - left. now apply Rinv_0_lt_compat.
Qed.

Lemma ring_points_bound (B : R) (s : RingSystem) :
  (forall y, In y (y_data s) -> Rabs y <= B) ->
  forall c, In c (ring_points s) -> Rabs (fst c) <= B /\ Rabs (snd c) <= B.
Proof.
  intros H c Hc. unfold ring_points, samples in Hc.
  apply in_map_iff in Hc. destruct Hc as ([x y] & <- & Hin).
  apply in_combine_r in Hin. specialize (H y Hin).
  unfold ring_map. cbn [fst snd]. rewrite !Rabs_mult.
  set (t := ring_angle x (period s) (shift s)).
  pose proof (COS_bound t) as Hc. pose proof (SIN_bound t) as Hs.
  assert (Rabs (cos t) <= 1) by (apply Rabs_le; lra).
  assert (Rabs (sin t) <= 1) by (apply Rabs_le; lra).
  pose proof (Rabs_pos y). split; nra.
Qed.

(** X4.  When every [|y|] is at most [B], so is each coordinate of the centroid
    that [draw_points] shows and records. *)
Theorem draw_points_centroid_bound (s : RingSystem) (B : R) :
  x_data s <> [] ->
  length (x_data s) = length (y_data s) ->
  period (resolve s) <> 0 ->
  (forall y, In y (y_data s) -> Rabs y <= B) ->
  exists (s' : RingSystem) (cx cy : R),
    draw_points s = (Ok tt, s') /\
    dict_get (fourier_data s') (period s') = Ok (cx, cy) /\
    Rabs cx <= B /\ Rabs cy <= B.
Proof.
  intros Hx Hl Hp HB.
  exists (drawn s), (mean (map fst (ring_points (resolve s)))),
         (mean (map snd (ring_points (resolve s)))).
  split; [now apply draw_points_ok |].
  split.
  { destruct (drawn_fields s) as (_ & _ & _ & Eq & Ed).
    rewrite Eq, Ed, <- (centroid_mean s Hl). apply dict_get_set_same. }
  destruct (resolve_samples s) as (Ex & Ey & _).
  assert (Hw : well_formed (resolve s)) by now apply resolve_well_formed.
  assert (Hne : ring_points (resolve s) <> []).
  { intros E. apply (f_equal (@length _)) in E.
    rewrite (ring_points_length _ Hw), Ex in E. cbn in E.
    apply length_zero_iff_nil in E. contradiction. }
  assert (Hb := ring_points_bound B (resolve s)). rewrite Ey in Hb.
  specialize (Hb HB).
  split; apply mean_bound.
  - intros E. apply map_eq_nil in E. contradiction.
  - intros v Hv. apply in_map_iff in Hv. destruct Hv as (c & <- & Hin). now apply Hb.
  - intros E. apply map_eq_nil in E. contradiction.
  - intros v Hv. apply in_map_iff in Hv. destruct Hv as (c & <- & Hin). now apply Hb.
Qed.

Lemma draw_points_centroid_bound_witness :
  exists (s' : RingSystem) (cx cy : R),
    draw_points (mkRingSystem None [0; 1] [1; -3] [] 0 2) = (Ok tt, s') /\
    dict_get (fourier_data s') (period s') = Ok (cx, cy) /\
    Rabs cx <= 3 /\ Rabs cy <= 3.
Proof.
  apply (draw_points_centroid_bound (mkRingSystem None [0; 1] [1; -3] [] 0 2) 3).
  - cbn. discriminate.
  - reflexivity.
  - unfold resolve. cbn [x_data period].
    rewrite (float_eqb_false 2 0) by lra. cbn. lra.
  - cbn [y_data]. intros y [<- | [<- | []]].
    + rewrite Rabs_right; lra.
    + rewrite Rabs_left; lra.
Defined.

(** ** [draw_points]: what it leaves alone *)



Lemma ring_body_zero (i : nat) (a : ring_acc) (s : RingSystem) :
  period s = 0 -> exists e, ring_body i a s = (Raise e, s).
Proof.
  intros Hp. unfold ring_body.
  unfold bind at 1. unfold gets at 1. unfold bind at 1. unfold lift at 1.
  destruct (py_index (x_data s) i) as [xi | e]; [| now exists e].
  unfold bind at 1. unfold gets at 1. unfold bind at 1. unfold lift at 1.
  destruct (py_index (y_data s) i) as [yi | e]; [| now exists e].
  exists ZeroDivisionError. apply bind_raise. now apply coordinate_to_ring_zero.
Qed.

(** The loop gets through its first sample only under a period that is
    not 0. *)
Lemma ring_loop_returns (i : nat) (idx : list nat) (a a' : ring_acc) (s s' : RingSystem) :
  ring_loop (i :: idx) a s = (Ok a', s') -> period s <> 0.
Proof.
  intros H Hp. cbn [ring_loop] in H.
  destruct (ring_body_zero i a s Hp) as (e & E).
  rewrite (bind_raise _ _ _ _ _ E) in H. discriminate.
Qed.



(** X6.  [draw_points] never changes the samples, and under a period that is not
    0 it changes neither the period nor the shift; this holds in every state,
    whether it returns or raises. *)
Theorem draw_points_frame (s : RingSystem) :
  x_data (state_of (draw_points s)) = x_data s /\
  y_data (state_of (draw_points s)) = y_data s /\
  (period s <> 0 ->
   period (state_of (draw_points s)) = period s /\
   shift (state_of (draw_points s)) = shift s).
Proof.
  destruct (core_eq _ _ (draw_points_core s)) as (Ex & Ey & Es & Ep).
  destruct (resolve_samples s) as (Rx & Ry & _).
  unfold state_of. rewrite Ex, Ey, Es, Ep.
  split; [exact Rx |]. split; [exact Ry |].
  intros Hp. now rewrite (resolve_fixed s Hp).
Qed.

Lemma draw_points_frame_witness :
  period (state_of (draw_points (mkRingSystem None [0; 1] [5] [] 3 2))) = 2 /\
  shift (state_of (draw_points (mkRingSystem None [0; 1] [5] [] 3 2))) = 3.
Proof.
  destruct (draw_points_frame (mkRingSystem None [0; 1] [5] [] 3 2)) as (_ & _ & H).
  apply H. cbn. lra.
Defined.

(** ** [draw_points]: what it records *)

Lemma float_eqb_eq (a b : R) : float_eqb a b = true -> a = b.
Proof. unfold float_eqb. destruct (Req_dec_T a b); [trivial | discriminate]. Qed.

Lemma dict_get_set_other (d : dict) (k0 k : R) (v : R * R) :
  k <> k0 -> dict_get (dict_set d k0 v) k = dict_get d k.
Proof.
  intros Hk. induction d as [| [k' v'] d IH]; cbn.
  - rewrite float_eqb_false by auto. reflexivity.
  - destruct (float_eqb k' k0) eqn:E0; cbn.
    + apply float_eqb_eq in E0. subst k'.
      rewrite float_eqb_false by auto. reflexivity.
    + destruct (float_eqb k' k); [reflexivity | exact IH].
Qed.

Lemma dict_set_keys_cases (d : dict) (k : R) (v : R * R) :
  dict_keys (dict_set d k v) = dict_keys d \/
  dict_keys (dict_set d k v) = dict_keys d ++ [k].
Proof.
  destruct (in_dec Req_dec_T k (dict_keys d)) as [Hin | Hout].
  - left. now apply dict_set_keys_present.
  - right. now apply dict_set_keys_absent.
Qed.

Lemma render_no_y (a : ring_acc) (s : RingSystem) :
  y_data s = [] -> curve (state_of (render a s)) = curve s.
Proof.
  destruct s as [f xs ys fd sh p]. cbn [y_data]. intros ->.
  unfold render. destruct f as [g |]; run_fields; reflexivity.
Qed.

Lemma render_recorded (a : ring_acc) (s : RingSystem) :
  recorded (curve s) (curve (state_of (render a s))).
Proof.
  destruct (y_data s) as [| y ys] eqn:Ey.
  - rewrite (render_no_y a s Ey). split; [reflexivity | now left].
  - rewrite render_ok by (rewrite Ey; discriminate).
    split; [reflexivity | right]. now exists (mean_x a, mean_y a).
Qed.

(** What [draw_points] does to [fourier_data], in every state and whether it
    returns or raises: nothing, or one assignment under the period, which is
    then not 0. *)
Lemma draw_points_recorded (s : RingSystem) :
  fourier_data (state_of (draw_points s)) = fourier_data s \/
  (period (state_of (draw_points s)) <> 0 /\
   exists c, fourier_data (state_of (draw_points s)) =
             dict_set (fourier_data s) (period (state_of (draw_points s))) c).
Proof.
  destruct (x_data s) as [| x l] eqn:Ex.
  - left. now rewrite draw_points_empty.
  - rewrite draw_points_resolve by (rewrite Ex; discriminate).
    destruct (resolve_samples s) as (_ & _ & Ef & _).
    rewrite Ex. cbn [length seq].
    set (L := ring_loop (0%nat :: seq 1 (length l)) (mkAcc 0 0 [] [])).
    pose proof (ring_loop_state (0%nat :: seq 1 (length l)) (mkAcc 0 0 [] []) (resolve s)) as Hs.
    fold L in Hs.
    destruct (L (resolve s)) as [[a | e] r] eqn:El; cbn [snd] in Hs; subst r.
    + rewrite (bind_ok _ _ _ _ _ El).
      apply ring_loop_returns in El.
      destruct (render_recorded a (resolve s)) as [Hp [Hd | [c Hd]]];
        cbn [curve fst snd] in Hp, Hd.
      * left. now rewrite Hd.
      * right. rewrite Hp. split; [exact El |]. exists c. now rewrite Hd, Ef.
    + rewrite (bind_raise _ _ _ _ _ El). left. exact Ef.
Qed.

(** X7.  [draw_points] never drops a period from [fourier_data] and never changes
    the entry of a period other than the current one; this holds in every
    state, whether it returns or raises. *)
Theorem draw_points_keeps_other_periods (s : RingSystem) (k : R) :
  (In k (dict_keys (fourier_data s)) ->
   In k (dict_keys (fourier_data (state_of (draw_points s))))) /\
  (k <> period (state_of (draw_points s)) ->
   dict_get (fourier_data (state_of (draw_points s))) k = dict_get (fourier_data s) k).
Proof.
  destruct (draw_points_recorded s) as [E | (_ & c & E)]; rewrite E.
  - split; trivial.
  - split.
    + intros Hin.
      destruct (dict_set_keys_cases (fourier_data s) (period (state_of (draw_points s))) c)
        as [Ek | Ek]; rewrite Ek; [exact Hin | apply in_or_app; now left].
    + intros Hk. now apply dict_get_set_other.
Qed.

Lemma draw_points_keeps_other_periods_witness :
  In 3 (dict_keys (fourier_data (state_of
         (draw_points (mkRingSystem None [0; 1] [1; 2] [(3, (1, 1))] 0 2))))) /\
  dict_get (fourier_data (state_of
         (draw_points (mkRingSystem None [0; 1] [1; 2] [(3, (1, 1))] 0 2)))) 3 =
    Ok (1, 1).
Proof.
  destruct (draw_points_keeps_other_periods
              (mkRingSystem None [0; 1] [1; 2] [(3, (1, 1))] 0 2) 3) as [Hin Hget].
  split.
  - apply Hin. cbn. now left.
  - rewrite Hget.
    + cbn. now rewrite float_eqb_refl.
    + destruct (core_eq _ _ (draw_points_core
                  (mkRingSystem None [0; 1] [1; 2] [(3, (1, 1))] 0 2))) as (_ & _ & _ & Hp).
      unfold state_of. rewrite Hp, resolve_fixed by (cbn; lra). cbn. lra.
Defined.

(** ** No centroid is ever recorded for the period 0 *)









(** ** The automatic period is derived once *)

Lemma add_point_ok (x y : R) (s : RingSystem) :
  add_point x y s =
    (Ok tt, with_y_data (y_data s ++ [y]) (with_x_data (x_data s ++ [x]) s)).
Proof. reflexivity. Qed.

(** X9.  Once [draw_points] has derived the period from the samples and returned,
    the period is no longer 0 and stays: a point added later, wherever it
    lies, does not change the period or the shift of the next
    [draw_points]. *)
Theorem auto_period_not_derived_again (s : RingSystem) (x y : R) :
  x_data s <> [] ->
  length (x_data s) = length (y_data s) ->
  period s = 0 ->
  max_of (x_data s) <> min_of (x_data s) ->
  exists s1 s2 : RingSystem,
    draw_points s = (Ok tt, s1) /\
    (add_point x y ;; draw_points) s1 = (Ok tt, s2) /\
    x_data s2 = x_data s ++ [x] /\
    period s2 = max_of (x_data s) - min_of (x_data s) /\
    shift s2 = - min_of (x_data s).
Proof.
  intros Hx Hw Hp Hspan.
  assert (Hr : resolve s =
               with_shift (- min_of (x_data s))
                 (with_period (max_of (x_data s) - min_of (x_data s)) s)).
  { unfold resolve. destruct (x_data s); [contradiction |].
    now rewrite (float_eqb_true _ _ Hp). }
  assert (Hrp : period (resolve s) <> 0) by (rewrite Hr; cbn [with_shift period with_period]; lra).
  destruct (drawn_fields s) as (Dx & Dy & Ds & Dp & _).
  set (t := with_y_data (y_data (drawn s) ++ [y]) (with_x_data (x_data (drawn s) ++ [x]) (drawn s))).
  assert (Ht : well_formed t).
  { unfold well_formed, t. cbn [with_y_data with_x_data x_data y_data].
    rewrite !length_app, Dx, Dy, Hw. reflexivity. }
  assert (Htp : period t <> 0).
  { unfold t. cbn [with_y_data with_x_data period]. now rewrite Dp. }
  exists (drawn s), (drawn t).
  split; [now apply draw_points_ok |].
  split.
  { rewrite (bind_ok _ _ _ _ _ (add_point_ok x y (drawn s))). fold t.
    rewrite (draw_points_fixed t Ht Htp).
    unfold t at 1. cbn [with_y_data with_x_data x_data].
    destruct (x_data (drawn s) ++ [x]) eqn:E; [| reflexivity].
    apply app_eq_nil in E. destruct E as [_ E]. discriminate. }
  destruct (drawn_fields t) as (Tx & _ & Ts & Tp & _).
  rewrite Tx, Ts, Tp, (resolve_fixed t Htp).
  unfold t. cbn [with_y_data with_x_data x_data shift period].
  rewrite Dx, Ds, Dp, Hr. cbn [with_shift with_period shift period]. repeat split.
Qed.

Lemma auto_period_not_derived_again_witness :
  exists s1 s2 : RingSystem,
    draw_points (mkRingSystem None [1; 3] [1; 1] [] 0 0) = (Ok tt, s1) /\
    (add_point 100 1 ;; draw_points) s1 = (Ok tt, s2) /\
    x_data s2 = [1; 3; 100] /\
    period s2 = max_of [1; 3] - min_of [1; 3] /\
    shift s2 = - min_of [1; 3].
Proof.
  apply (auto_period_not_derived_again (mkRingSystem None [1; 3] [1; 1] [] 0 0) 100 1).
  - cbn. discriminate.
  - reflexivity.
  - reflexivity.
  - cbn. rewrite float_ltb_true by lra. rewrite float_ltb_false by lra. lra.
Defined.

(** ** The transform plot *)

Lemma insert_sorted_Sorted (k : R) (l : list R) :
  Sorted Rle l -> Sorted Rle (insert_sorted k l).
Proof.
  induction l as [| h t IH]; intros Hs; cbn.
  - repeat constructor.
  - apply Sorted_inv in Hs. destruct Hs as [Ht Hh].
    unfold float_ltb. destruct (Rlt_dec h k) as [Hlt | Hge].
    + constructor; [now apply IH |].
      destruct t as [| h' t']; cbn.
      * constructor. lra.
      * apply HdRel_inv in Hh. unfold float_ltb.
        destruct (Rlt_dec h' k); constructor; lra.
    + constructor; [now constructor |]. constructor. lra.
Qed.

Lemma py_sorted_Sorted (l : list R) : Sorted Rle (py_sorted l).
Proof.
  unfold py_sorted. induction l as [| h t IH]; cbn; [constructor |].
  now apply insert_sorted_Sorted.
Qed.

Lemma insert_sorted_Permutation (k : R) (l : list R) :
  Permutation (insert_sorted k l) (k :: l).
Proof.
  induction l as [| h t IH]; cbn; [reflexivity |].
  destruct (float_ltb h k); [| reflexivity].
  rewrite IH. apply perm_swap.
Qed.

Lemma py_sorted_Permutation (l : list R) : Permutation (py_sorted l) l.
Proof.
  unfold py_sorted. induction l as [| h t IH]; cbn; [reflexivity |].
  rewrite insert_sorted_Permutation. now constructor.
Qed.

Lemma Sorted_last_is_max (l : list R) :
  l <> [] -> Sorted Rle l -> is_max (last l 0) l.
Proof.
  intros Hl Hs. split.
  - destruct (exists_last Hl) as (l' & a & ->). rewrite last_last.
    apply in_or_app. right. now left.
  - apply Sorted_StronglySorted in Hs; [| intros a b c; apply Rle_trans].
    clear Hl. induction l as [| h t IH]; intros x Hx; [contradiction |].
    apply StronglySorted_inv in Hs. destruct Hs as [Ht Hall].
    destruct t as [| h' t'].
    + destruct Hx as [<- | []]. cbn. lra.
    + change (last (h :: h' :: t') 0) with (last (h' :: t') 0).
      destruct Hx as [<- | Hx]; [| now apply IH].
      apply Rle_trans with h'.
      * rewrite Forall_forall in Hall. apply Hall. now left.
      * apply IH; [exact Ht | now left].
Qed.

Lemma rev_head_last (l : list (R * (R * R))) :
  match rev l with x :: _ => fst x | [] => 0 end = last (map fst l) 0.
Proof.
  destruct l as [| a l] using rev_ind; [reflexivity |].
  rewrite rev_app_distr, map_app. cbn [rev app map]. now rewrite last_last.
Qed.

(** The transform plot of the state in which [draw_points] returns. *)
Lemma drawn_transform_plot (s : RingSystem) :
  exists g : figure,
    fig (drawn s) = Some g /\
    fourier_real_xdata g = py_sorted (dict_keys (fourier_data (drawn s))) /\
    fourier_imaginary_xdata g = py_sorted (dict_keys (fourier_data (drawn s))) /\
    fourier_real_ydata g =
      map (fun k => fst (value_of (fourier_data (drawn s)) k))
          (py_sorted (dict_keys (fourier_data (drawn s)))) /\
    fourier_imaginary_ydata g =
      map (fun k => snd (value_of (fourier_data (drawn s)) k))
          (py_sorted (dict_keys (fourier_data (drawn s)))) /\
    fourier_xlim g = (0, last (py_sorted (dict_keys (fourier_data (drawn s)))) 0) /\
    fourier_scatter g =
      [(period (drawn s), max_from (fst (centroid s)) [snd (centroid s)])].
Proof.
  eexists. split; [reflexivity |].
  cbn [fourier_real_xdata fourier_imaginary_xdata fourier_real_ydata
       fourier_imaginary_ydata fourier_xlim fourier_scatter].
  rewrite rev_head_last, !map_map. cbn [fst snd].
  rewrite map_id. repeat split.
Qed.

(** X10.  When [draw_points] returns, the two lines of the transform plot have one
    point for each period recorded in [fourier_data], in ascending order of
    the periods; the i-th point of the one line shows the real part and that
    of the other the imaginary part of the centroid recorded for the i-th
    period; and the x axis ends at the largest recorded period. *)
Theorem draw_points_transform_plot (s : RingSystem) :
  x_data s <> [] ->
  length (x_data s) = length (y_data s) ->
  period (resolve s) <> 0 ->
  exists (s' : RingSystem) (g : figure),
    draw_points s = (Ok tt, s') /\ fig s' = Some g /\
    Sorted Rle (fourier_real_xdata g) /\
    Permutation (fourier_real_xdata g) (dict_keys (fourier_data s')) /\
    fourier_imaginary_xdata g = fourier_real_xdata g /\
    (forall i, (i < length (fourier_real_xdata g))%nat ->
       dict_get (fourier_data s') (nth i (fourier_real_xdata g) 0) =
         Ok (nth i (fourier_real_ydata g) 0, nth i (fourier_imaginary_ydata g) 0)) /\
    fourier_xlim g = (0, last (fourier_real_xdata g) 0) /\
    is_max (last (fourier_real_xdata g) 0) (dict_keys (fourier_data s')).
Proof.
  intros Hx Hl Hp.
  destruct (drawn_transform_plot s) as (g & Hf & Hrx & Hix & Hry & Hiy & Hlim & _).
  exists (drawn s), g. split; [now apply draw_points_ok |]. split; [exact Hf |].
  set (d := fourier_data (drawn s)) in *. set (ks := py_sorted (dict_keys d)) in *.
  rewrite Hrx, Hix, Hry, Hiy, Hlim.
  split; [apply py_sorted_Sorted |].
  split; [apply py_sorted_Permutation |].
  split; [reflexivity |].
  split.
  { intros i Hi.
    rewrite (nth_indep (map (fun k => fst (value_of d k)) ks) 0 (fst (value_of d 0)))
      by now rewrite length_map.
    rewrite (nth_indep (map (fun k => snd (value_of d k)) ks) 0 (snd (value_of d 0)))
      by now rewrite length_map.
    rewrite (map_nth (fun k => fst (value_of d k))).
    rewrite (map_nth (fun k => snd (value_of d k))).
    rewrite <- surjective_pairing. apply dict_get_In.
    apply py_sorted_In. now apply nth_In. }
  split; [reflexivity |].
  assert (Hne : ks <> []).
  { intros E. apply (f_equal (@length _)) in E. unfold ks in E.
    rewrite py_sorted_length in E. unfold dict_keys in E. rewrite length_map in E.
    apply length_zero_iff_nil in E. unfold d in E.
    destruct (drawn_fields s) as (_ & _ & _ & _ & Ed). rewrite Ed in E.
    now apply dict_set_nonempty in E. }
  destruct (Sorted_last_is_max ks Hne (py_sorted_Sorted _)) as [Hin Hmax].
  split.
  - now apply py_sorted_In.
  - intros x Hx'. apply Hmax.
    apply (Permutation_in x (Permutation_sym (py_sorted_Permutation (dict_keys d)))).
    exact Hx'.
Qed.

Lemma draw_points_transform_plot_witness :
  exists (s' : RingSystem) (g : figure),
    draw_points (mkRingSystem None [0; 1] [1; 3] [(7, (1, 1)); (3, (2, 2))] 0 5) =
      (Ok tt, s') /\
    fig s' = Some g /\
    Sorted Rle (fourier_real_xdata g) /\
    Permutation (fourier_real_xdata g) (dict_keys (fourier_data s')).
Proof.
  destruct (draw_points_transform_plot
              (mkRingSystem None [0; 1] [1; 3] [(7, (1, 1)); (3, (2, 2))] 0 5))
    as (s' & g & Hd & Hf & Hs & Hperm & _).
  - cbn. discriminate.
  - reflexivity.
  - unfold resolve. cbn [x_data period].
    rewrite (float_eqb_false 5 0) by lra. cbn. lra.
  - exists s', g. repeat split; assumption.
Defined.

Lemma max_from_pair (a b : R) : max_from a [b] = Rmax a b.
Proof.
  cbn. unfold float_ltb, Rmax.
  destruct (Rlt_dec a b), (Rle_dec a b); try reflexivity; lra.
Qed.

(** X11.  When [draw_points] returns, the red dot of the transform plot stands at
    the current period, at the height of the larger of the real and the
    imaginary part of the centroid just recorded. *)
Theorem draw_points_marker (s : RingSystem) :
  x_data s <> [] ->
  length (x_data s) = length (y_data s) ->
  period (resolve s) <> 0 ->
  exists (s' : RingSystem) (g : figure) (cx cy : R),
    draw_points s = (Ok tt, s') /\ fig s' = Some g /\
    dict_get (fourier_data s') (period s') = Ok (cx, cy) /\
    fourier_scatter g = [(period s', Rmax cx cy)].
Proof.
  intros Hx Hl Hp.
  destruct (drawn_transform_plot s) as (g & Hf & _ & _ & _ & _ & _ & Hm).
  exists (drawn s), g, (fst (centroid s)), (snd (centroid s)).
  split; [now apply draw_points_ok |]. split; [exact Hf |].
  split.
  - destruct (drawn_fields s) as (_ & _ & _ & Eq & Ed).
    rewrite Eq, Ed, <- surjective_pairing. apply dict_get_set_same.
  - now rewrite Hm, max_from_pair.
Qed.

Lemma draw_points_marker_witness :
  exists (s' : RingSystem) (g : figure) (cx cy : R),
    draw_points (mkRingSystem None [0; 1] [1; 3] [] 0 5) = (Ok tt, s') /\
    fig s' = Some g /\
    dict_get (fourier_data s') (period s') = Ok (cx, cy) /\
    fourier_scatter g = [(period s', Rmax cx cy)].
Proof.
  apply (draw_points_marker (mkRingSystem None [0; 1] [1; 3] [] 0 5)).
  - cbn. discriminate.
  - reflexivity.
  - unfold resolve. cbn [x_data period].
    rewrite (float_eqb_false 5 0) by lra. cbn. lra.
Defined.

(** ** [add_function] at the edges *)

(** X12.  With [samples = 0] the step cannot be computed: [add_function] raises
    [ZeroDivisionError], and by then the samples and [fourier_data] that were
    there have been cleared. *)
Theorem add_function_zero_samples (from_x to_x : R) (f : R -> R) (s : RingSystem) :
  add_function from_x to_x 0 f s =
    (Raise ZeroDivisionError, mkRingSystem (fig s) [] [] [] (shift s) (period s)).
Proof.
  unfold add_function, reset_points.
  unfold bind at 1. unfold bind at 1. unfold modify at 1.
  unfold bind at 1. unfold modify at 1. unfold modify at 1.
  apply bind_raise. unfold lift. now rewrite py_div_zero.
Qed.




(** X14.  Over an interval that is a single point the step is 0 and [add_function]
    raises, leaving the samples and [fourier_data] cleared. *)
Theorem add_function_single_point (from_x : R) (samples : Z) (f : R -> R) (s : RingSystem) :
  raises (add_function from_x from_x samples f) s /\
  state_of (add_function from_x from_x samples f s) =
    mkRingSystem (fig s) [] [] [] (shift s) (period s).
Proof.
  destruct (Z.eq_dec samples 0) as [-> | Hn].
  - assert (E : add_function from_x from_x 0 f s =
                (Raise ZeroDivisionError, mkRingSystem (fig s) [] [] [] (shift s) (period s))).
    { unfold add_function, reset_points.
      unfold bind at 1. unfold bind at 1. unfold modify at 1.
      unfold bind at 1. unfold modify at 1. unfold modify at 1.
      apply bind_raise. unfold lift. now rewrite py_div_zero. }
    unfold raises. rewrite E. split; [| reflexivity]. eexists; eexists; reflexivity.
  - assert (E : add_function from_x from_x samples f s =
                (Raise ZeroDivisionError, mkRingSystem (fig s) [] [] [] (shift s) (period s))).
    { unfold add_function, reset_points.
      unfold bind at 1. unfold bind at 1. unfold modify at 1.
      unfold bind at 1. unfold modify at 1. unfold modify at 1.
      unfold bind at 1. unfold lift at 1.
      rewrite py_div_ok by now apply not_0_IZR.
      apply bind_raise. unfold lift, arange.
      replace ((from_x - from_x) / IZR samples) with 0
        by (unfold Rdiv; ring).
      now rewrite py_div_zero. }
    unfold raises. rewrite E. split; [| reflexivity]. eexists; eexists; reflexivity.
Qed.



(** ** The plots and the callback *)

(** X16.  Called on an object without plots and without samples, the slider's
    callback stores the period and then raises [AttributeError]: there is no
    figure whose canvas it could redraw. *)
Theorem update_period_without_plots (s : RingSystem) (p : R) :
  fig s = None -> x_data s = [] ->
  update_period p s = (Raise AttributeError, with_period p s).
Proof.
  intros Hf Hx. unfold update_period.
  unfold bind at 1. unfold modify at 1.
  rewrite (bind_ok _ _ _ _ _ (draw_points_empty (with_period p s) Hx)).
  unfold bind, gets, lift. cbn [with_period fig]. now rewrite Hf.
Qed.

Lemma update_period_without_plots_witness :
  update_period 3 init = (Raise AttributeError, mkRingSystem None [] [] [] 0 3).
Proof.
  apply (update_period_without_plots init 3); reflexivity.
Defined.

Lemma has_fig_on_fig (h : figure -> figure) : preserves has_fig (on_fig h).
Proof.
  intros s H. unfold on_fig, state_of, has_fig in *.
  destruct (fig s); [cbn; discriminate | contradiction].
Qed.

Ltac has_fig_steps :=
  repeat first
    [ apply has_fig_on_fig
    | apply preserves_modify; intros ? ?; first [assumption | cbn; discriminate]
    | apply preserves_pure; intros ?; first [reflexivity | apply ring_loop_state]
    | apply preserves_for_each; intros ?
    | apply preserves_bind; [| intros ? ]
    | match goal with |- preserves _ (match ?x with _ => _ end) => destruct x end ].

Lemma has_fig_draw_points : preserves has_fig draw_points.
Proof. unfold draw_points, render, auto_period, setup_plot. has_fig_steps. Qed.

Lemma has_fig_update_period (p : R) : preserves has_fig (update_period p).
Proof.
  unfold update_period.
  apply preserves_bind; [apply preserves_modify; intros s H; exact H | intros _].
  apply preserves_bind; [apply has_fig_draw_points | intros _]. has_fig_steps.
Qed.

(** X17.  No method removes the plots once they are set up, whether it returns or
    raises: [reset_points] and [add_function] clear the samples and leave the
    plots as they were. *)
Theorem plots_are_never_removed (s : RingSystem) (o : op) :
  fig s <> None -> fig (state_of (run_op o s)) <> None.
Proof.
  revert s. change (preserves has_fig (run_op o)).
  destruct o; cbn [run_op].
  - unfold add_point. has_fig_steps.
  - unfold add_function, reset_points, add_point. has_fig_steps.
  - unfold set_period.
    apply preserves_bind; [apply preserves_modify; intros s H; exact H | intros _].
    apply preserves_bind; [apply preserves_modify; intros s H; exact H | intros _].
    apply preserves_bind; [now apply preserves_pure | intros [g |]].
    + apply preserves_bind; [now apply preserves_pure | intros q].
      apply has_fig_update_period.
    + now apply preserves_pure.
  - apply has_fig_update_period.
  - unfold reset_points. has_fig_steps.
  - apply has_fig_draw_points.
Qed.

Lemma plots_are_never_removed_witness :
  fig (state_of (run_op ResetPoints
         (mkRingSystem (Some (mkFigure [1] [0] [] (0, 1) (0, 1) [] [] [] [] (0, 1) (0, 1) []))
            [0] [1] [] 0 1))) <> None.
Proof.
  apply (plots_are_never_removed
           (mkRingSystem (Some (mkFigure [1] [0] [] (0, 1) (0, 1) [] [] [] [] (0, 1) (0, 1) []))
              [0] [1] [] 0 1) ResetPoints).
  cbn. discriminate.
Defined.

(** X18.  [set_period] only stores its arguments while there are no plots; once the
    plots are set up and there are samples it also redraws, as [draw_points]
    would after the assignment, and so records the centroid of the new
    period. *)
Theorem set_period_redraws_when_plotted (s : RingSystem) (p sh : R) :
  length (x_data s) = length (y_data s) ->
  p <> 0 ->
  (fig s = None ->
   set_period p sh s = (Ok tt, with_period p (with_shift sh s))) /\
  (fig s <> None -> x_data s <> [] ->
   exists s' : RingSystem,
     set_period p sh s = (Ok tt, s') /\
     draw_points (with_period p (with_shift sh s)) = (Ok tt, s') /\
     dict_get (fourier_data s') p =
       Ok (centroid (with_period p (with_shift sh s)))).
Proof.
  intros Hw Hp. pose proof (set_period_ok s p sh Hw Hp) as E. split.
  - intros Hf. rewrite E, Hf. reflexivity.
  - intros Hf Hx. exists (drawn (with_period p (with_shift sh s))).
    split; [| split].
    + rewrite E. destruct (fig s); [| contradiction].
      destruct (x_data s); [contradiction | reflexivity].
    + apply draw_points_ok; [exact Hx | exact Hw |].
      now rewrite resolve_fixed.
    + destruct (drawn_fields (with_period p (with_shift sh s))) as (_ & _ & _ & _ & Ed).
      rewrite Ed, resolve_fixed by exact Hp. apply dict_get_set_same.
Qed.

Lemma set_period_redraws_when_plotted_witness :
  set_period 2 0 (mkRingSystem None [0; 1] [1; 3] [] 0 0) =
    (Ok tt, mkRingSystem None [0; 1] [1; 3] [] 0 2) /\
  exists s' : RingSystem,
    set_period 2 0
      (mkRingSystem (Some (mkFigure [] [] [] (0, 1) (0, 1) [] [] [] [] (0, 1) (0, 1) []))
         [0; 1] [1; 3] [] 0 0) = (Ok tt, s') /\
    dict_get (fourier_data s') 2 =
      Ok (centroid (mkRingSystem
                      (Some (mkFigure [] [] [] (0, 1) (0, 1) [] [] [] [] (0, 1) (0, 1) []))
                      [0; 1] [1; 3] [] 0 2)).
Proof.
  split.
  - apply (set_period_redraws_when_plotted (mkRingSystem None [0; 1] [1; 3] [] 0 0) 2 0);
      [reflexivity | lra | reflexivity].
  - destruct (set_period_redraws_when_plotted
                (mkRingSystem
                   (Some (mkFigure [] [] [] (0, 1) (0, 1) [] [] [] [] (0, 1) (0, 1) []))
                   [0; 1] [1; 3] [] 0 0) 2 0) as [_ H]; [reflexivity | lra |].
    destruct H as (s' & H1 & _ & H3); [cbn; discriminate | cbn; discriminate |].
    exists s'. split; assumption.
Defined.

(** X19.  After [reset_points], [draw_points] has nothing to draw: it returns at
    once, so that the plots keep showing the curves of the samples that are
    gone, and period and shift stay as they were. *)
Theorem reset_points_then_draw_points (s : RingSystem) :
  (reset_points ;; draw_points) s =
    (Ok tt, mkRingSystem (fig s) [] [] [] (shift s) (period s)).
Proof.
  assert (E : reset_points s = (Ok tt, mkRingSystem (fig s) [] [] [] (shift s) (period s)))
    by reflexivity.
  rewrite (bind_ok _ _ _ _ _ E). now apply draw_points_empty.
Qed.

Lemma combine_app {A B : Type} (l1 l2 : list A) (m1 m2 : list B) :
  length l1 = length m1 ->
  combine (l1 ++ l2) (m1 ++ m2) = combine l1 m1 ++ combine l2 m2.
Proof.
  revert m1. induction l1 as [| a l1 IH]; intros [| b m1] H; try discriminate.
  - reflexivity.
  - cbn. f_equal. apply IH. now injection H.
Qed.

(** X20.  Under a period that is not 0, adding a point and drawing puts the ring
    point of the new sample at the end of the ring plot and leaves the ring
    points of the samples before it as they were. *)
Theorem add_point_extends_ring_plot (s : RingSystem) (x y : R) :
  length (x_data s) = length (y_data s) ->
  period s <> 0 ->
  exists (s' : RingSystem) (g : figure),
    (add_point x y ;; draw_points) s = (Ok tt, s') /\
    fig s' = Some g /\
    plot_xdata g =
      map fst (ring_points s) ++ [fst (ring_map x y (period s) (shift s))] /\
    plot_ydata g =
      map snd (ring_points s) ++ [snd (ring_map x y (period s) (shift s))].
Proof.
  intros Hw Hp.
  set (t := with_y_data (y_data s ++ [y]) (with_x_data (x_data s ++ [x]) s)).
  assert (Ht : well_formed t).
  { unfold well_formed, t. cbn [with_y_data with_x_data x_data y_data].
    rewrite !length_app, Hw. reflexivity. }
  assert (Htp : period t <> 0) by exact Hp.
  destruct (drawn_ring_plot t) as (g & Hf & Hpx & Hpy & _).
  exists (drawn t), g. split.
  { rewrite (bind_ok _ _ _ _ _ (add_point_ok x y s)). fold t.
    rewrite (draw_points_fixed t Ht Htp).
    unfold t at 1. cbn [with_y_data with_x_data x_data].
    destruct (x_data s ++ [x]) eqn:E; [| reflexivity].
    apply app_eq_nil in E. destruct E as [_ E]. discriminate. }
  split; [exact Hf |].
  assert (Hr : ring_points (resolve t) =
               ring_points s ++ [ring_map x y (period s) (shift s)]).
  { rewrite (resolve_fixed t Htp). unfold ring_points, samples, t.
    cbn [with_y_data with_x_data x_data y_data period shift].
    rewrite (combine_app _ _ _ _ Hw), map_app. reflexivity. }
  rewrite Hpx, Hpy, Hr, !map_app. split; reflexivity.
Qed.

Lemma add_point_extends_ring_plot_witness :
  exists (s' : RingSystem) (g : figure),
    (add_point 2 5 ;; draw_points) (mkRingSystem None [0; 1] [1; 3] [] 0 4) = (Ok tt, s') /\
    fig s' = Some g /\
    plot_xdata g =
      map fst (ring_points (mkRingSystem None [0; 1] [1; 3] [] 0 4)) ++
      [fst (ring_map 2 5 4 0)] /\
    plot_ydata g =
      map snd (ring_points (mkRingSystem None [0; 1] [1; 3] [] 0 4)) ++
      [snd (ring_map 2 5 4 0)].
Proof.
  apply (add_point_extends_ring_plot (mkRingSystem None [0; 1] [1; 3] [] 0 4) 2 5).
  - reflexivity.
  - cbn. lra.
Defined.

(** ** Exploring periods *)

(** The centroid depends on the samples, the period and the shift only. *)
Lemma centroid_core (a b : RingSystem) : core a = core b -> centroid a = centroid b.
Proof.
  intros H. apply core_eq in H. destruct H as (Hx & Hy & Hs & Hp).
  destruct a as [fa xa ya da sa pa], b as [fb xb yb db sb pb].
  cbn [x_data y_data shift period] in *. subst xb yb sb pb.
  unfold centroid, resolve. cbn [x_data period].
  destruct xa as [| x l]; [reflexivity |].
  destruct (float_eqb pa 0); reflexivity.
Qed.

(** X21.  Drawing twice in a row is drawing once, also when the first drawing had
    to derive the period. *)
Theorem draw_points_twice (s : RingSystem) :
  x_data s <> [] ->
  length (x_data s) = length (y_data s) ->
  period (resolve s) <> 0 ->
  (draw_points ;; draw_points) s = draw_points s.
Proof.
  intros Hx Hw Hp. rewrite (draw_points_ok s Hx Hw Hp).
  rewrite (bind_ok _ _ _ _ _ (draw_points_ok s Hx Hw Hp)).
  destruct (drawn_fields s) as (Dx & _ & _ & Dp & _).
  rewrite draw_points_fixed.
  - rewrite Dx. destruct (x_data s) as [| x l]; [contradiction |]. f_equal.
    assert (E : drawn s = drawn (resolve s)).
    { unfold drawn. now rewrite (resolve_fixed (resolve s) Hp). }
    rewrite E. now apply drawn_idem.
  - now apply drawn_well_formed.
  - now rewrite Dp.
Qed.

Lemma draw_points_twice_witness :
  (draw_points ;; draw_points) (mkRingSystem None [1; 3] [1; 1] [] 0 0) =
  draw_points (mkRingSystem None [1; 3] [1; 1] [] 0 0).
Proof.
  apply (draw_points_twice (mkRingSystem None [1; 3] [1; 1] [] 0 0)).
  - cbn. discriminate.
  - reflexivity.
  - unfold resolve. cbn [x_data period]. rewrite float_eqb_refl.
    cbn. rewrite float_ltb_true by lra. rewrite float_ltb_false by lra. lra.
Defined.

(** X22.  Moving the slider to one period and then to another records both: after
    the two callbacks [fourier_data] holds, under each of the two periods, the
    centroid of the samples for that period. *)
Theorem update_period_accumulates (s : RingSystem) (p1 p2 : R) :
  fig s <> None ->
  x_data s <> [] ->
  length (x_data s) = length (y_data s) ->
  p1 <> 0 -> p2 <> 0 -> p1 <> p2 ->
  exists s1 s2 : RingSystem,
    update_period p1 s = (Ok tt, s1) /\
    update_period p2 s1 = (Ok tt, s2) /\
    dict_get (fourier_data s2) p1 = Ok (centroid (with_period p1 s)) /\
    dict_get (fourier_data s2) p2 = Ok (centroid (with_period p2 s)).
Proof.
  intros Hf Hx Hw H1 H2 Hne.
  set (s1 := drawn (with_period p1 s)).
  destruct (drawn_fields (with_period p1 s)) as (Dx & Dy & Ds & Dp & Dd).
  fold s1 in Dx, Dy, Ds, Dp, Dd.
  rewrite (resolve_fixed (with_period p1 s) H1) in Ds, Dp, Dd.
  cbn [with_period x_data y_data shift period fourier_data] in Dx, Dy, Ds, Dp, Dd.
  assert (Hw1 : well_formed s1) by (unfold well_formed; now rewrite Dx, Dy).
  assert (Hx1 : x_data s1 <> []) by now rewrite Dx.
  assert (E1 : update_period p1 s = (Ok tt, s1)).
  { rewrite (update_period_ok s p1 Hw H1 Hf).
    destruct (x_data s); [contradiction | reflexivity]. }
  assert (E2 : update_period p2 s1 = (Ok tt, drawn (with_period p2 s1))).
  { rewrite (update_period_ok s1 p2 Hw1 H2) by (unfold s1; cbn; discriminate).
    destruct (x_data s1); [contradiction | reflexivity]. }
  exists s1, (drawn (with_period p2 s1)).
  split; [exact E1 |]. split; [exact E2 |].
  destruct (drawn_fields (with_period p2 s1)) as (_ & _ & _ & _ & Ed).
  rewrite (resolve_fixed (with_period p2 s1) H2) in Ed.
  cbn [with_period fourier_data period] in Ed. rewrite Ed, Dd.
  split.
  - rewrite dict_get_set_other by exact Hne. apply dict_get_set_same.
  - rewrite dict_get_set_same. f_equal. apply centroid_core.
    unfold core. cbn [with_period x_data y_data shift period].
    now rewrite Dx, Dy, Ds.
Qed.

Lemma update_period_accumulates_witness :
  exists s1 s2 : RingSystem,
    update_period 2
      (mkRingSystem (Some (mkFigure [] [] [] (0, 1) (0, 1) [] [] [] [] (0, 1) (0, 1) []))
         [0; 1] [1; 3] [] 0 0) = (Ok tt, s1) /\
    update_period 5 s1 = (Ok tt, s2) /\
    dict_get (fourier_data s2) 2 =
      Ok (centroid (mkRingSystem
                      (Some (mkFigure [] [] [] (0, 1) (0, 1) [] [] [] [] (0, 1) (0, 1) []))
                      [0; 1] [1; 3] [] 0 2)) /\
    dict_get (fourier_data s2) 5 =
      Ok (centroid (mkRingSystem
                      (Some (mkFigure [] [] [] (0, 1) (0, 1) [] [] [] [] (0, 1) (0, 1) []))
                      [0; 1] [1; 3] [] 0 5)).
Proof.
  apply (update_period_accumulates
           (mkRingSystem (Some (mkFigure [] [] [] (0, 1) (0, 1) [] [] [] [] (0, 1) (0, 1) []))
              [0; 1] [1; 3] [] 0 0) 2 5).
  - cbn. discriminate.
  - cbn. discriminate.
  - reflexivity.
  - lra.
  - lra.
  - lra.
Defined.
